(** * Shader reflection: a shallow embedding of impeller/compiler/reflector.cc

    The development follows the translation unit top down: machine
    integers and host sizes, the SPIRV-Cross data the reflector reads, the
    JSON values it builds, then one definition per function of the file in
    the order of the source, and finally the properties of the layout
    engine, of the per-vertex synthesis and of the document assembly. *)

From stdpp Require Import base gmap sets list strings pretty.

Set Warnings "-register-all,-clear-no-such-hyp".
Local Open Scope Z_scope.

(** ** Machine integers

    [uint32_t] and [size_t] values are integers of [Z] that carry their
    range; arithmetic is done in [Z] and wrapped explicitly where the C++
    expression wraps.  [size_t] is 64 bits wide, as on the hosts the
    compiler is built for. *)

Definition wrap32 (z : Z) : Z := z mod 2 ^ 32.
Definition wrap_size (z : Z) : Z := z mod 2 ^ 64.

Definition fits32 (z : Z) : bool := (0 <=? z) && (z <? 2 ^ 32).
Definition fits_size (z : Z) : bool := (0 <=? z) && (z <? 2 ^ 64).

Record uint32_t := Uint32 { u32 :> Z; u32_fits : fits32 u32 = true }.
Record size_t := SizeT { usize :> Z; usize_fits : fits_size usize = true }.

(** Conversion to [uint32_t] and [size_t] (the implicit narrowing of the
    source), also used for the literals of the sample modules. *)
Definition to_uint32 (z : Z) : uint32_t.
Proof.
  refine (Uint32 (wrap32 z) _).
  unfold fits32, wrap32.
  pose proof (Z.mod_pos_bound z (2 ^ 32) ltac:(done)) as [??].
  apply andb_true_iff; split; [by apply Z.leb_le | by apply Z.ltb_lt].
Defined.

Definition to_size (z : Z) : size_t.
Proof.
  refine (SizeT (wrap_size z) _).
  unfold fits_size, wrap_size.
  pose proof (Z.mod_pos_bound z (2 ^ 64) ltac:(done)) as [??].
  apply andb_true_iff; split; [by apply Z.leb_le | by apply Z.ltb_lt].
Defined.

(** ** Host sizes

    The [sizeof] of the host types the layout rules name.  The geometry
    headers that fix them are not part of this translation unit, so they
    are a parameter of the embedding. *)

Record Host := {
  sizeof_bool : size_t;
  sizeof_float : size_t;
  sizeof_Scalar : size_t;
  sizeof_Matrix : size_t;
  sizeof_Point : size_t;
  sizeof_Vector3 : size_t;
  sizeof_Vector4 : size_t;
}.

(** [sizeof(uint32_t)] and [sizeof(int32_t)]: exact-width types, 4 bytes
    on every host with 8-bit bytes. *)
Definition sizeof_uint32_t : Z := 4.
Definition sizeof_int32_t : Z := 4.

(** Modelled from the spec: the [sizeof] values of the geometry headers,
    which are not in this translation unit.  A one-byte [bool]; [Scalar] is
    a 32-bit float; a point is 2 floats, a 4-component vector 4 floats, a
    3-component vector 3 floats in its packed representation, and a matrix
    4 by 4 floats. *)
Definition impeller_host : Host := {|
  sizeof_bool := to_size 1;
  sizeof_float := to_size 4;
  sizeof_Scalar := to_size 4;
  sizeof_Matrix := to_size 64;
  sizeof_Point := to_size 8;
  sizeof_Vector3 := to_size 12;
  sizeof_Vector4 := to_size 16;
|}.

(** ** SPIRV-Cross data read by the reflector *)

Definition ID := Z.
Definition TypeID := ID.

Inductive BaseType :=
  | Unknown | Void | Boolean | SByte | UByte | Short | UShort | Int | UInt
  | Int64 | UInt64 | AtomicCounter | Half | Float | Double | Struct | Image
  | SampledImage | Sampler | AccelerationStructure | RayQuery.

Global Instance BaseType_eq_dec : EqDecision BaseType.
Proof. solve_decision. Defined.

Record SPIRType := {
  self : ID;
  basetype : BaseType;
  width : uint32_t;
  vecsize : uint32_t;
  columns : uint32_t;
  member_types : list TypeID;
  type_alias : TypeID;
}.

Inductive ExecutionModel :=
  | ExecutionModelVertex
  | ExecutionModelTessellationControl
  | ExecutionModelTessellationEvaluation
  | ExecutionModelGeometry
  | ExecutionModelFragment
  | ExecutionModelGLCompute
  | ExecutionModelKernel.

Global Instance ExecutionModel_eq_dec : EqDecision ExecutionModel.
Proof. solve_decision. Defined.

Inductive Decoration :=
  | DecorationDescriptorSet
  | DecorationBinding
  | DecorationLocation
  | DecorationIndex.

Record EntryPoint := {
  ep_name : string;
  execution_model : ExecutionModel;
}.

Record Resource := {
  res_id : ID;
  type_id : TypeID;
  res_name : string;
}.

Record ShaderResources := {
  uniform_buffers : list Resource;
  stage_inputs : list Resource;
  stage_outputs : list Resource;
  sampled_images : list Resource;
  separate_images : list Resource;
  separate_samplers : list Resource;
}.

(** The queries of [CompilerMSL] the reflector uses. *)
Record CompilerMSL := {
  get_entry_points_and_stages : list EntryPoint;
  get_shader_resources : ShaderResources;
  get_type : TypeID → SPIRType;
  get_name : ID → string;
  get_decoration : ID → Decoration → uint32_t;
  get_automatic_msl_resource_binding : ID → uint32_t;
  get_automatic_msl_resource_binding_secondary : ID → uint32_t;
  get_automatic_msl_resource_binding_tertiary : ID → uint32_t;
  get_automatic_msl_resource_binding_quaternary : ID → uint32_t;
}.

(** [ParsedIR]: the sequence [for_each_typed_id<SPIRType>] walks, and the
    [meta] table with the member decorations of each id. *)
Record MemberDecoration := { alias : string }.
Record Meta := { members : list MemberDecoration }.

Record ParsedIR := {
  typed_ids : list SPIRType;
  meta : gmap ID Meta;
}.

Record Options := {
  shader_name : string;
  header_file_name : string;
}.

(** ** JSON values ([nlohmann::json]) *)

Inductive json :=
  | JNull
  | JString (s : string)
  | JNumber (n : Z)
  | JArray (l : list json)
  | JObject (o : gmap string json).

Definition json_get (key : string) (j : json) : option json :=
  match j with
  | JObject o => o !! key
  | _ => None
  end.

(** ** Process state and runs

    [sUnnamedMembersID] is the function-local static counter of
    [GetMemberNameAtIndex].  [resources_seen] is a history variable: the
    ids of the resources handed to [ReflectResource] so far, most recent
    first; it exists only to state what has happened before a given
    point.  A run either returns, or exhausts the recursion budget given
    to the alias walk, or ends the process ([FML_CHECK], or an exception
    nothing catches). *)

Record World := {
  sUnnamedMembersID : Z;
  resources_seen : list ID;
}.

Inductive Outcome (A : Type) :=
  | Returned (a : A) (w : World)
  | OutOfFuel
  | Aborted.
Arguments Returned {A} a w.
Arguments OutOfFuel {A}.
Arguments Aborted {A}.

Definition Run (A : Type) : Type := World → Outcome A.

Global Instance Run_ret : MRet Run := λ A a w, Returned a w.
Global Instance Run_bind : MBind Run := λ A B k m w,
  match m w with
  | Returned a w' => k a w'
  | OutOfFuel => OutOfFuel
  | Aborted => Aborted
  end.

(** [sUnnamedMembersID++] on a [std::atomic_size_t]. *)
Definition next_unnamed_id : Run Z := λ w,
  Returned (sUnnamedMembersID w)
    {| sUnnamedMembersID := wrap_size (sUnnamedMembersID w + 1);
       resources_seen := resources_seen w |}.

Definition note_reflected (r : ID) : Run () := λ w,
  Returned ()
    {| sUnnamedMembersID := sUnnamedMembersID w;
       resources_seen := r :: resources_seen w |}.

Definition FML_CHECK (b : bool) : Run () := λ w,
  if b then Returned () w else Aborted.

(** ** Free functions at the head of the file *)

Definition BaseTypeToString (type : BaseType) : string :=
  match type with
  | Void => "ShaderType::kVoid"
  | Boolean => "ShaderType::kBoolean"
  | SByte => "ShaderType::kSignedByte"
  | UByte => "ShaderType::kUnsignedByte"
  | Short => "ShaderType::kSignedShort"
  | UShort => "ShaderType::kUnsignedShort"
  | Int => "ShaderType::kSignedInt"
  | UInt => "ShaderType::kUnsignedInt"
  | Int64 => "ShaderType::kSignedInt64"
  | UInt64 => "ShaderType::kUnsignedInt64"
  | AtomicCounter => "ShaderType::kAtomicCounter"
  | Half => "ShaderType::kHalfFloat"
  | Float => "ShaderType::kFloat"
  | Double => "ShaderType::kDouble"
  | Struct => "ShaderType::kStruct"
  | Image => "ShaderType::kImage"
  | SampledImage => "ShaderType::kSampledImage"
  | Sampler => "ShaderType::kSampler"
  | _ => "ShaderType::kUnknown"
  end.

Definition ExecutionModelToString (model : ExecutionModel) : string :=
  match model with
  | ExecutionModelVertex => "vertex"
  | ExecutionModelFragment => "fragment"
  | _ => "unsupported"
  end.

Definition StringToShaderStage (str : string) : string :=
  if bool_decide (str = "vertex") then "ShaderStage::kVertex"
  else if bool_decide (str = "fragment") then "ShaderStage::kFragment"
  else "ShaderStage::kUnknown".

Definition TypeNameWithPaddingOfSize (size : Z) : string :=
  "Padding<" +:+ pretty size +:+ ">".

Record KnownType := {
  kt_name : string;
  kt_byte_size : Z;
}.

Definition ReadKnownScalarType (host : Host) (type : BaseType)
    : option KnownType :=
  match type with
  | Boolean => Some {| kt_name := "bool"; kt_byte_size := sizeof_bool host |}
  | Float => Some {| kt_name := "Scalar"; kt_byte_size := sizeof_Scalar host |}
  | UInt => Some {| kt_name := "uint32_t"; kt_byte_size := sizeof_uint32_t |}
  | Int => Some {| kt_name := "int32_t"; kt_byte_size := sizeof_int32_t |}
  | _ => None
  end.

(** [std::string::find(needle) != npos]. *)
Fixpoint string_contains (needle hay : string) : bool :=
  String.prefix needle hay ||
  match hay with
  | EmptyString => false
  | String _ rest => string_contains needle rest
  end.

(** ** Results of the layout engine *)

Record StructMember := {
  sm_type : string;
  sm_name : string;
  sm_offset : Z;
  sm_byte_length : Z;
}.

Record StructDefinition := {
  sd_name : string;
  sd_byte_length : Z;
  sd_members : list StructMember;
}.

Record VertexType := {
  vt_type_name : string;
  vt_variable_name : string;
  vt_byte_length : Z;
}.

(** The template engine and the two templates of code_gen_template.h are
    outside this translation unit.  [inja_render] receives the two
    callbacks the reflector registers; [None] is a rendering exception. *)
Record CodeGen := {
  kReflectionHeaderTemplate : string;
  kReflectionCCTemplate : string;
  ConvertToCamelCase : string → string;
  inja_render :
    (string → string) → (string → string) → string → json → option string;
}.

(** ** The member functions of [Reflector] *)

Section Reflector.

Variable host : Host.
Variable codegen : CodeGen.
Variable options_ : Options.
Variable ir_ : ParsedIR.
Variable compiler_ : CompilerMSL.

(** *** Resources *)

Definition ReflectType (type_id : TypeID) : option json :=
  let type := get_type compiler_ type_id in
  let result : gmap string json := ∅ in
  let result := <["type_name" := JString (BaseTypeToString (basetype type))]> result in
  let result := <["bit_width" := JNumber (width type)]> result in
  let result := <["vec_size" := JNumber (vecsize type)]> result in
  let result := <["columns" := JNumber (columns type)]> result in
  Some (JObject result).

Definition ReflectResource (resource : Resource) : Run (option json) :=
  _ ← note_reflected (res_id resource);
  let result : gmap string json := ∅ in
  let result := <["name" := JString (res_name resource)]> result in
  let result := <["descriptor_set" :=
    JNumber (get_decoration compiler_ (res_id resource) DecorationDescriptorSet)]> result in
  let result := <["binding" :=
    JNumber (get_decoration compiler_ (res_id resource) DecorationBinding)]> result in
  let result := <["location" :=
    JNumber (get_decoration compiler_ (res_id resource) DecorationLocation)]> result in
  let result := <["index" :=
    JNumber (get_decoration compiler_ (res_id resource) DecorationIndex)]> result in
  let result := <["msl_res_0" :=
    JNumber (get_automatic_msl_resource_binding compiler_ (res_id resource))]> result in
  let result := <["msl_res_1" :=
    JNumber (get_automatic_msl_resource_binding_secondary compiler_ (res_id resource))]> result in
  let result := <["msl_res_2" :=
    JNumber (get_automatic_msl_resource_binding_tertiary compiler_ (res_id resource))]> result in
  let result := <["msl_res_3" :=
    JNumber (get_automatic_msl_resource_binding_quaternary compiler_ (res_id resource))]> result in
  match ReflectType (type_id resource) with
  | None => mret None
  | Some type => mret (Some (JObject (<["type" := type]> result)))
  end.

(** The loop of [ReflectResources], with [result] the array built so far. *)
Fixpoint ReflectResources_from (resources : list Resource) (result : list json)
    : Run (option (list json)) :=
  match resources with
  | [] => mret (Some result)
  | resource :: rest =>
      reflected ← ReflectResource resource;
      match reflected with
      | Some value => ReflectResources_from rest (result ++ [value])
      | None => mret None
      end
  end.

Definition ReflectResources (resources : list Resource)
    : Run (option (list json)) :=
  ReflectResources_from resources [].

(** *** Member names *)

(** The recursion through [type_alias] is bounded by [fuel]; [None] means
    the budget ran out before an unaliased type was reached. *)
Fixpoint GetMemberNameAtIndexIfExists (fuel : nat) (parent_type : SPIRType)
    (index : nat) : option (option string) :=
  match fuel with
  | O => None
  | S fuel' =>
      if bool_decide (type_alias parent_type ≠ 0) then
        GetMemberNameAtIndexIfExists fuel'
          (get_type compiler_ (type_alias parent_type)) index
      else
        Some
          match meta ir_ !! self parent_type with
          | Some found =>
              match members found !! index with
              | Some member =>
                  if bool_decide (alias member ≠ "") then Some (alias member)
                  else None
              | None => None
              end
          | None => None
          end
  end.

Definition GetMemberNameAtIndex (fuel : nat) (parent_type : SPIRType)
    (index : nat) (suffix : string) : Run string := λ w,
  match GetMemberNameAtIndexIfExists fuel parent_type index with
  | None => OutOfFuel
  | Some (Some name) => Returned name w
  | Some None =>
      (n ← next_unnamed_id; mret ("unnamed_" +:+ pretty n +:+ suffix)) w
  end.

(** *** Struct layout *)

(** One iteration of the loop of [ReadStructMembers]: member [i] of
    [struct_type], whose resolved type is [member], with the vector
    [result] and the running [total_byte_length] as they stand on entry. *)
Definition ReadStructMember (fuel : nat) (struct_type : SPIRType) (i : nat)
    (member : SPIRType) (result : list StructMember) (total_byte_length : Z)
    : Run (list StructMember * Z) :=
  let emplace_one (type : string) (byte_length : Z) :=
    name ← GetMemberNameAtIndex fuel struct_type i "";
    mret (result ++ [{| sm_type := type; sm_name := name;
                        sm_offset := total_byte_length;
                        sm_byte_length := byte_length |}],
          wrap_size (total_byte_length + byte_length)) in
  let catch_all :=
    let byte_length :=
      wrap32 (width member * columns member * vecsize member) / 8 in
    emplace_one (TypeNameWithPaddingOfSize byte_length) byte_length in
  if bool_decide (basetype member = Float) &&
     bool_decide ((width member : Z) = wrap_size (sizeof_Scalar host * 8)) &&
     bool_decide ((columns member : Z) = 4) &&
     bool_decide ((vecsize member : Z) = 4)
  then emplace_one "Matrix" (sizeof_Matrix host)
  else if bool_decide (basetype member = Float) &&
     bool_decide ((width member : Z) = wrap_size (sizeof_float host * 8)) &&
     bool_decide ((columns member : Z) = 1) &&
     bool_decide ((vecsize member : Z) = 2)
  then emplace_one "Point" (sizeof_Point host)
  else if bool_decide (basetype member = Float) &&
     bool_decide ((width member : Z) = wrap_size (sizeof_float host * 8)) &&
     bool_decide ((columns member : Z) = 1) &&
     bool_decide ((vecsize member : Z) = 3)
  then emplace_one "Vector3" (sizeof_Vector3 host)
  else if bool_decide (basetype member = Float) &&
     bool_decide ((width member : Z) = wrap_size (sizeof_float host * 8)) &&
     bool_decide ((columns member : Z) = 1) &&
     bool_decide ((vecsize member : Z) = 4)
  then emplace_one "Vector4" (sizeof_Vector4 host)
  else
    match ReadKnownScalarType host (basetype member) with
    | Some known_type =>
        if bool_decide ((columns member : Z) = 1) &&
           bool_decide ((vecsize member : Z) = 1)
        then
          name ← GetMemberNameAtIndex fuel struct_type i "";
          let result := result ++
            [{| sm_type := kt_name known_type; sm_name := name;
                sm_offset := total_byte_length;
                sm_byte_length := kt_byte_size known_type |}] in
          let total_byte_length :=
            wrap_size (total_byte_length + kt_byte_size known_type) in
          let padding :=
            wrap_size (width member / 8 - kt_byte_size known_type) in
          if bool_decide (padding ≠ 0) then
            pad_name ← GetMemberNameAtIndex fuel struct_type i "_pad";
            mret (result ++
                    [{| sm_type := TypeNameWithPaddingOfSize padding;
                        sm_name := pad_name;
                        sm_offset := total_byte_length;
                        sm_byte_length := padding |}],
                  wrap_size (total_byte_length + padding))
          else mret (result, total_byte_length)
        else catch_all
    | None => catch_all
    end.

(** The loop itself: [member_types] from index [i] on. *)
Fixpoint ReadStructMembers_from (fuel : nat) (struct_type : SPIRType)
    (i : nat) (member_types : list TypeID) (result : list StructMember)
    (total_byte_length : Z) : Run (list StructMember) :=
  match member_types with
  | [] => mret result
  | member_type :: rest =>
      '(result, total_byte_length) ←
        ReadStructMember fuel struct_type i (get_type compiler_ member_type)
          result total_byte_length;
      ReadStructMembers_from fuel struct_type (S i) rest result
        total_byte_length
  end.

Definition ReadStructMembers (fuel : nat) (type_id : TypeID)
    : Run (list StructMember) :=
  let struct_type := get_type compiler_ type_id in
  _ ← FML_CHECK (bool_decide (basetype struct_type = Struct));
  ReadStructMembers_from fuel struct_type 0 (member_types struct_type) [] 0.

(** The accumulation of [total_size] in [ReflectStructDefinition]. *)
Definition declared_size (member_type : SPIRType) : Z :=
  wrap32 (width member_type * vecsize member_type * columns member_type) / 8.

Fixpoint total_size_from (member_types : list TypeID) (total_size : Z) : Z :=
  match member_types with
  | [] => total_size
  | member_type_id :: rest =>
      total_size_from rest
        (wrap_size (total_size + declared_size (get_type compiler_ member_type_id)))
  end.

Definition ReflectStructDefinition (fuel : nat) (type_id : TypeID)
    : Run (option StructDefinition) :=
  let type := get_type compiler_ type_id in
  if bool_decide (basetype type ≠ Struct) then mret None
  else
    let struct_name := get_name compiler_ type_id in
    if string_contains "_RESERVED_IDENTIFIER_" struct_name then mret None
    else
      let total_size := total_size_from (member_types type) 0 in
      members ← ReadStructMembers fuel type_id;
      mret (Some {| sd_name := struct_name;
                    sd_byte_length := total_size;
                    sd_members := members |}).

Definition EmitStructMember (struc_member : StructMember) : json :=
  let member : gmap string json := ∅ in
  let member := <["name" := JString (sm_name struc_member)]> member in
  let member := <["type" := JString (sm_type struc_member)]> member in
  let member := <["offset" := JNumber (sm_offset struc_member)]> member in
  let member := <["byte_length" := JNumber (sm_byte_length struc_member)]> member in
  JObject member.

Definition EmitStructDefinition (struc : StructDefinition) : json :=
  let result : gmap string json := ∅ in
  let result := <["name" := JString (sd_name struc)]> result in
  let result := <["byte_length" := JNumber (sd_byte_length struc)]> result in
  let result := <["members" := JArray (EmitStructMember <$> sd_members struc)]> result in
  JObject result.

(** *** The per-vertex structure *)

Definition VertexTypeFromInputResource (resource : Resource) : VertexType :=
  let type := get_type compiler_ (type_id resource) in
  let total_size := wrap32 (columns type * vecsize type * width type) / 8 in
  let is_float_vector (n : Z) :=
    bool_decide (basetype type = Float) &&
    bool_decide ((columns type : Z) = 1) &&
    bool_decide ((vecsize type : Z) = n) &&
    bool_decide ((width type : Z) = wrap_size (sizeof_float host * 8)) in
  {| vt_variable_name := res_name resource;
     vt_byte_length := total_size;
     vt_type_name :=
       if is_float_vector 2 then "Point"
       else if is_float_vector 4 then "Vector4"
       else if is_float_vector 3 then "Vector3"
       else TypeNameWithPaddingOfSize total_size |}.

Definition location_of (input : Resource) : Z :=
  get_decoration compiler_ (res_id input) DecorationLocation.

(** The first loop: the set of locations, or [None] at the first
    duplicate. *)
Fixpoint collect_locations (stage_inputs : list Resource) (locations : gset Z)
    : option (gset Z) :=
  match stage_inputs with
  | [] => Some locations
  | input :: rest =>
      let location := location_of input in
      if bool_decide (location ∈ locations) then None
      else collect_locations rest ({[location]} ∪ locations)
  end.

(** The second loop: [locations.count(i) == 1] for every [i] below
    [locations.size()]; the [size_t] index narrows to the set's key type. *)
Definition locations_contiguous (locations : gset Z) : bool :=
  forallb (λ i : nat, bool_decide (wrap32 (Z.of_nat i) ∈ locations))
    (seq 0 (size locations)).

(** The lambda [input_for_location]. *)
Fixpoint input_for_location (stage_inputs : list Resource)
    (queried_location : Z) : option Resource :=
  match stage_inputs with
  | [] => None
  | input :: rest =>
      if bool_decide (location_of input = queried_location) then Some input
      else input_for_location rest queried_location
  end.

(** The last loop, over the indices still to do, with [struc] as built so
    far. *)
Fixpoint per_vertex_members (stage_inputs : list Resource)
    (indices : list nat) (struc : StructDefinition)
    : option StructDefinition :=
  match indices with
  | [] => Some struc
  | i :: rest =>
      match input_for_location stage_inputs (wrap32 (Z.of_nat i)) with
      | None => None
      | Some resource =>
          let vertex_type := VertexTypeFromInputResource resource in
          let member :=
            {| sm_name := vt_variable_name vertex_type;
               sm_type := vt_type_name vertex_type;
               sm_byte_length := vt_byte_length vertex_type;
               sm_offset := sd_byte_length struc |} in
          per_vertex_members stage_inputs rest
            {| sd_name := sd_name struc;
               sd_byte_length :=
                 wrap_size (sd_byte_length struc + vt_byte_length vertex_type);
               sd_members := sd_members struc ++ [member] |}
      end
  end.

Definition ReflectPerVertexStructDefinition (stage_inputs : list Resource)
    : option StructDefinition :=
  if bool_decide (stage_inputs = []) then None
  else
    match collect_locations stage_inputs ∅ with
    | None => None
    | Some locations =>
        if negb (locations_contiguous locations) then None
        else
          per_vertex_members stage_inputs (seq 0 (size locations))
            {| sd_name := "PerVertexData"; sd_byte_length := 0;
               sd_members := [] |}
    end.

(** *** Document assembly *)

(** The callback given to [for_each_typed_id<SPIRType>], run over the rest
    of the type sequence. *)
Fixpoint ReflectStructDefinitions_from (fuel : nat) (types : list SPIRType)
    (known_structs : gset ID) (struct_definitions : list json)
    : Run (list json) :=
  match types with
  | [] => mret struct_definitions
  | type :: rest =>
      if bool_decide (self type ∈ known_structs) then
        ReflectStructDefinitions_from fuel rest known_structs
          struct_definitions
      else
        let known_structs := {[self type]} ∪ known_structs in
        struc ← ReflectStructDefinition fuel (self type);
        match struc with
        | Some struc =>
            ReflectStructDefinitions_from fuel rest known_structs
              (struct_definitions ++ [EmitStructDefinition struc])
        | None =>
            ReflectStructDefinitions_from fuel rest known_structs
              struct_definitions
        end
  end.

Definition GenerateTemplateArguments (fuel : nat) : Run (option json) :=
  let root : gmap string json := ∅ in
  let entrypoints := get_entry_points_and_stages compiler_ in
  if bool_decide (length entrypoints ≠ 1%nat) then mret None
  else
    match entrypoints with
    | [] => mret None
    | front :: _ =>
        let root := <["entrypoint" := JString (ep_name front)]> root in
        let root := <["shader_name" := JString (shader_name options_)]> root in
        let root := <["shader_stage" :=
          JString (ExecutionModelToString (execution_model front))]> root in
        let root := <["header_file_name" :=
          JString (header_file_name options_)]> root in
        let shader_resources := get_shader_resources compiler_ in
        uniform_buffers ← ReflectResources (uniform_buffers shader_resources);
        match uniform_buffers with
        | None => mret None
        | Some uniform_buffers =>
        let root := <["uniform_buffers" := JArray uniform_buffers]> root in
        let root := <["stage_inputs" := JArray []]> root in
        stage_inputs_json ← ReflectResources (stage_inputs shader_resources);
        match stage_inputs_json with
        | None => mret None
        | Some stage_inputs_json =>
        let root := <["stage_inputs" := JArray stage_inputs_json]> root in
        combined_sampled_images ←
          ReflectResources (sampled_images shader_resources);
        images ← ReflectResources (separate_images shader_resources);
        samplers ← ReflectResources (separate_samplers shader_resources);
        match combined_sampled_images, images, samplers with
        | Some combined_sampled_images, Some images, Some samplers =>
        let sampled_images : list json := [] in
        let sampled_images := sampled_images ++ combined_sampled_images in
        let sampled_images := sampled_images ++ images in
        let sampled_images := sampled_images ++ samplers in
        let root := <["sampled_images" := JArray sampled_images]> root in
        stage_outputs ← ReflectResources (stage_outputs shader_resources);
        match stage_outputs with
        | None => mret None
        | Some stage_outputs =>
        let root := <["stage_outputs" := JArray stage_outputs]> root in
        let struct_definitions : list json :=
          if bool_decide (execution_model front = ExecutionModelVertex) then
            match ReflectPerVertexStructDefinition
                    (stage_inputs shader_resources) with
            | Some struc => [EmitStructDefinition struc]
            | None => []
            end
          else [] in
        struct_definitions ←
          ReflectStructDefinitions_from fuel (typed_ids ir_) ∅
            struct_definitions;
        let root := <["struct_definitions" := JArray struct_definitions]> root in
        mret (Some (JObject root))
        end
        | _, _, _ => mret None
        end
        end
        end
    end.

(** *** Rendering *)

Definition InflateTemplate (template_arguments : json) (tmpl : string)
    : Run (option string) := λ w,
  match inja_render codegen (ConvertToCamelCase codegen) StringToShaderStage
          tmpl template_arguments with
  | Some inflated_template => Returned (Some inflated_template) w
  | None => Aborted
  end.

Definition GenerateReflectionHeader (template_arguments : json)
    : Run (option string) :=
  InflateTemplate template_arguments (kReflectionHeaderTemplate codegen).

Definition GenerateReflectionCC (template_arguments : json)
    : Run (option string) :=
  InflateTemplate template_arguments (kReflectionCCTemplate codegen).

End Reflector.

(** ** The [Reflector] object *)

Record Reflector := {
  template_arguments_ : option json;
  reflection_header_ : option string;
  reflection_cc_ : option string;
  is_valid_ : bool;
}.

(** The constructor; [ir] and [compiler] are shared pointers and may be
    null.  The members keep their default values on every early return. *)
Definition Reflector_ctor (host : Host) (codegen : CodeGen)
    (options : Options) (ir : option ParsedIR) (compiler : option CompilerMSL)
    (fuel : nat) : Run Reflector :=
  match ir, compiler with
  | Some ir, Some compiler =>
      template_arguments ←
        GenerateTemplateArguments host options ir compiler fuel;
      match template_arguments with
      | None =>
          mret {| template_arguments_ := None; reflection_header_ := None;
                  reflection_cc_ := None; is_valid_ := false |}
      | Some template_arguments =>
          reflection_header ← GenerateReflectionHeader codegen template_arguments;
          match reflection_header with
          | None =>
              mret {| template_arguments_ := Some template_arguments;
                      reflection_header_ := None;
                      reflection_cc_ := None; is_valid_ := false |}
          | Some _ =>
              reflection_cc ← GenerateReflectionCC codegen template_arguments;
              match reflection_cc with
              | None =>
                  mret {| template_arguments_ := Some template_arguments;
                          reflection_header_ := reflection_header;
                          reflection_cc_ := None; is_valid_ := false |}
              | Some _ =>
                  mret {| template_arguments_ := Some template_arguments;
                          reflection_header_ := reflection_header;
                          reflection_cc_ := reflection_cc;
                          is_valid_ := true |}
              end
          end
      end
  | _, _ =>
      mret {| template_arguments_ := None; reflection_header_ := None;
              reflection_cc_ := None; is_valid_ := false |}
  end.

Definition IsValid (r : Reflector) : bool := is_valid_ r.
Definition GetReflectionHeader (r : Reflector) : option string :=
  reflection_header_ r.
Definition GetReflectionCC (r : Reflector) : option string :=
  reflection_cc_ r.

(** * Vocabulary of the properties *)

(** ** Runs and resources *)

(** The world after [resources] have been handed to [ReflectResource]. *)
Definition after_reflecting (resources : list Resource) (w : World) : World :=
  {| sUnnamedMembersID := sUnnamedMembersID w;
     resources_seen := rev (res_id <$> resources) ++ resources_seen w |}.

(** ** Member lists *)

(** Sum of the [byte_length] fields of a member list. *)
Definition members_byte_length (members : list StructMember) : Z :=
  foldr (λ member total, sm_byte_length member + total) 0 members.

(** Each member starts where the previous one ends, the first at [start],
    with the [size_t] arithmetic of the running total. *)
Fixpoint packed_from (start : Z) (members : list StructMember) : Prop :=
  match members with
  | [] => True
  | member :: rest =>
      sm_offset member = start ∧
      packed_from (wrap_size (start + sm_byte_length member)) rest
  end.

Fixpoint end_from (start : Z) (members : list StructMember) : Z :=
  match members with
  | [] => start
  | member :: rest => end_from (wrap_size (start + sm_byte_length member)) rest
  end.

(** The same without wrap-around: offsets are the plain sums. *)
Fixpoint contiguous_from (start : Z) (members : list StructMember) : Prop :=
  match members with
  | [] => True
  | member :: rest =>
      sm_offset member = start ∧
      contiguous_from (start + sm_byte_length member) rest
  end.

(** Sum of the declared sizes of a list of member types. *)
Definition declared_total (types : list SPIRType) : Z :=
  foldr (λ type total, declared_size type + total) 0 types.

(** The number of definitions reflected for [id] in a list of definitions
    tagged with the identifier they were reflected for. *)
Definition definitions_for (id : ID) (tagged : list (ID * StructDefinition))
    : nat :=
  length (filter (λ entry, entry.1 = id) tagged).

Definition emit_tagged (tagged : list (ID * StructDefinition)) : list json :=
  (λ entry, EmitStructDefinition entry.2) <$> tagged.

Section Vocabulary.

Variable host : Host.
Variable options_ : Options.
Variable ir_ : ParsedIR.
Variable compiler_ : CompilerMSL.

(** [value] is what [ReflectResource] returns for [resource], in every
    world. *)
Definition reflects (resource : Resource) (value : json) : Prop :=
  ∀ w, ReflectResource compiler_ resource w =
       Returned (Some value) (after_reflecting [resource] w).

(** The struct definitions the assembly starts the type walk with. *)
Definition per_vertex_definitions (front : EntryPoint) : list json :=
  if bool_decide (execution_model front = ExecutionModelVertex) then
    match ReflectPerVertexStructDefinition host compiler_
            (stage_inputs (get_shader_resources compiler_)) with
    | Some struc => [EmitStructDefinition struc]
    | None => []
    end
  else [].

(** The root object once every key has been assigned. *)
Definition assembled (front : EntryPoint)
    (uniform_buffers stage_inputs sampled_images stage_outputs
       struct_definitions : list json) : json :=
  JObject
    (<["struct_definitions" := JArray struct_definitions]>
    (<["stage_outputs" := JArray stage_outputs]>
    (<["sampled_images" := JArray sampled_images]>
    (<["stage_inputs" := JArray stage_inputs]>
    (<["stage_inputs" := JArray []]>
    (<["uniform_buffers" := JArray uniform_buffers]>
    (<["header_file_name" := JString (header_file_name options_)]>
    (<["shader_stage" :=
        JString (ExecutionModelToString (execution_model front))]>
    (<["shader_name" := JString (shader_name options_)]>
    (<["entrypoint" := JString (ep_name front)]> ∅)))))))))).

(** ** Type aliases *)

(** [alias_chain t n u]: following [type_alias] from [t] reaches, after
    [n] aliased types, the type [u] whose [type_alias] is 0. *)
Inductive alias_chain : SPIRType → nat → SPIRType → Prop :=
  | alias_chain_end t :
      type_alias t = 0 → alias_chain t 0 t
  | alias_chain_step t n u :
      type_alias t ≠ 0 →
      alias_chain (get_type compiler_ (type_alias t)) n u →
      alias_chain t (S n) u.

(** The member alias the [meta] table declares for [t] at [index]. *)
Inductive declared_alias (t : SPIRType) (index : nat) (a : string) : Prop :=
  | declared_alias_intro found member :
      meta ir_ !! self t = Some found →
      members found !! index = Some member →
      alias member = a →
      a ≠ "" →
      declared_alias t index a.

(** ** Stage inputs *)

(** The declared locations of a list of stage inputs, in list order. *)
Definition locations_of (stage_inputs : list Resource) : list Z :=
  location_of compiler_ <$> stage_inputs.

(** ** Layout rules *)

(** The host sizes are the natural sizes of the types: a 4-byte float,
    and vectors and matrices that are packed arrays of floats. *)
Definition natural_host : Prop :=
  usize (sizeof_float host) = 4 ∧ usize (sizeof_Scalar host) = 4 ∧
  usize (sizeof_Matrix host) = 64 ∧ usize (sizeof_Point host) = 8 ∧
  usize (sizeof_Vector3 host) = 12 ∧ usize (sizeof_Vector4 host) = 16.

(** The scalar rule, if it applies to [member], does not subtract a
    larger size from a smaller one. *)
Definition no_underflow (member : SPIRType) : Prop :=
  ∀ known_type,
    ReadKnownScalarType host (basetype member) = Some known_type →
    (columns member : Z) = 1 → (vecsize member : Z) = 1 →
    kt_byte_size known_type ≤ width member / 8.

(** The members one iteration appends for [member] when the running total
    is [total], rule by rule. *)
Inductive emitted (member : SPIRType) (total : Z)
    : list StructMember → Prop :=
  | emitted_Matrix name :
      basetype member = Float →
      (width member : Z) = wrap_size (sizeof_Scalar host * 8) →
      (columns member : Z) = 4 → (vecsize member : Z) = 4 →
      emitted member total
        [{| sm_type := "Matrix"; sm_name := name; sm_offset := total;
            sm_byte_length := sizeof_Matrix host |}]
  | emitted_Point name :
      basetype member = Float →
      (width member : Z) = wrap_size (sizeof_float host * 8) →
      (columns member : Z) = 1 → (vecsize member : Z) = 2 →
      emitted member total
        [{| sm_type := "Point"; sm_name := name; sm_offset := total;
            sm_byte_length := sizeof_Point host |}]
  | emitted_Vector3 name :
      basetype member = Float →
      (width member : Z) = wrap_size (sizeof_float host * 8) →
      (columns member : Z) = 1 → (vecsize member : Z) = 3 →
      emitted member total
        [{| sm_type := "Vector3"; sm_name := name; sm_offset := total;
            sm_byte_length := sizeof_Vector3 host |}]
  | emitted_Vector4 name :
      basetype member = Float →
      (width member : Z) = wrap_size (sizeof_float host * 8) →
      (columns member : Z) = 1 → (vecsize member : Z) = 4 →
      emitted member total
        [{| sm_type := "Vector4"; sm_name := name; sm_offset := total;
            sm_byte_length := sizeof_Vector4 host |}]
  | emitted_scalar known_type name :
      ReadKnownScalarType host (basetype member) = Some known_type →
      (columns member : Z) = 1 → (vecsize member : Z) = 1 →
      wrap_size (width member / 8 - kt_byte_size known_type) = 0 →
      emitted member total
        [{| sm_type := kt_name known_type; sm_name := name;
            sm_offset := total;
            sm_byte_length := kt_byte_size known_type |}]
  | emitted_scalar_padding known_type name pad_name :
      ReadKnownScalarType host (basetype member) = Some known_type →
      (columns member : Z) = 1 → (vecsize member : Z) = 1 →
      let padding := wrap_size (width member / 8 - kt_byte_size known_type) in
      padding ≠ 0 →
      emitted member total
        [{| sm_type := kt_name known_type; sm_name := name;
            sm_offset := total;
            sm_byte_length := kt_byte_size known_type |};
         {| sm_type := TypeNameWithPaddingOfSize padding;
            sm_name := pad_name;
            sm_offset := wrap_size (total + kt_byte_size known_type);
            sm_byte_length := padding |}]
  | emitted_opaque name :
      let byte_length :=
        wrap32 (width member * columns member * vecsize member) / 8 in
      emitted member total
        [{| sm_type := TypeNameWithPaddingOfSize byte_length;
            sm_name := name; sm_offset := total;
            sm_byte_length := byte_length |}].

(** The member list the whole loop appends for the resolved member types
    [types], starting with the running total [total]. *)
Inductive laid_out : list SPIRType → Z → list StructMember → Prop :=
  | laid_out_nil total : laid_out [] total []
  | laid_out_cons member rest total new more :
      emitted member total new →
      laid_out rest (end_from total new) more →
      laid_out (member :: rest) total (new ++ more).

(** ** The type walk *)

(** [ReflectStructDefinition] passes both of its guards for [id]. *)
Definition reflectable (id : ID) : bool :=
  bool_decide (basetype (get_type compiler_ id) = Struct) &&
  negb (string_contains "_RESERVED_IDENTIFIER_" (get_name compiler_ id)).

(** The identifiers the type walk hands to [ReflectStructDefinition]: the
    [self] of each type of the sequence not seen before. *)
Fixpoint first_visits (types : list SPIRType) (known_structs : gset ID)
    : list ID :=
  match types with
  | [] => []
  | type :: rest =>
      if bool_decide (self type ∈ known_structs) then
        first_visits rest known_structs
      else self type :: first_visits rest ({[self type]} ∪ known_structs)
  end.

(** Reflecting a list of identifiers one after the other, keeping the
    definitions returned, each with its identifier. *)
Fixpoint reflect_each (fuel : nat) (ids : list ID)
    : Run (list (ID * StructDefinition)) :=
  match ids with
  | [] => mret []
  | id :: rest =>
      struc ← ReflectStructDefinition host ir_ compiler_ fuel id;
      more ← reflect_each fuel rest;
      mret (match struc with
            | Some struc => (id, struc) :: more
            | None => more
            end)
  end.

End Vocabulary.

(** * Sample modules *)

Definition mk_type (self : ID) (basetype : BaseType) (width vecsize columns : Z)
    (member_types : list TypeID) (type_alias : TypeID) : SPIRType :=
  {| self := self; basetype := basetype; width := to_uint32 width;
     vecsize := to_uint32 vecsize; columns := to_uint32 columns;
     member_types := member_types; type_alias := type_alias |}.

(** Scalars and vectors: 1 is a boolean as SPIRV-Cross resolves
    [OpTypeBool] (width 1), 4 a boolean declared at 32 bits, 5 a float whose
    width is not a whole number of 4-byte words.  Structs: 10 to 14.
    Aliases: 40 aliases 41, which aliases the struct 42. *)
Definition sample_types (type_id : TypeID) : SPIRType :=
  match type_id with
  | 1 => mk_type 1 Boolean 1 1 1 [] 0
  | 2 => mk_type 2 Float 32 1 1 [] 0
  | 3 => mk_type 3 Float 32 4 1 [] 0
  | 4 => mk_type 4 Boolean 32 1 1 [] 0
  | 6 => mk_type 6 Float 32 2 1 [] 0
  | 7 => mk_type 7 SampledImage 32 1 1 [] 0
  | 10 => mk_type 10 Struct 0 1 1 [1] 0
  | 11 => mk_type 11 Struct 0 1 1 [1; 2] 0
  | 12 => mk_type 12 Struct 0 1 1 [3; 1] 0
  | 13 => mk_type 13 Struct 0 1 1 [4] 0
  | 14 => mk_type 14 Struct 0 1 1 [2] 0
  | 40 => mk_type 40 Struct 0 1 1 [2] 41
  | 41 => mk_type 41 Struct 0 1 1 [2] 42
  | 42 => mk_type 42 Struct 0 1 1 [2] 0
  | _ => mk_type type_id Unknown 0 1 1 [] 0
  end.

Definition sample_names (id : ID) : string :=
  match id with
  | 10 => "Flags"
  | 11 => "Mixed"
  | 12 => "Tinted"
  | 13 => "Wide"
  | 14 => "_RESERVED_IDENTIFIER_FIXUP_gl_PerVertex"
  | 42 => "Material"
  | _ => ""
  end.

(** Resource 20 is declared at location 0 and resource 21 at location 1;
    resources 22 and 23 both at location 2. *)
Definition sample_decorations (id : ID) (decoration : Decoration) : uint32_t :=
  match decoration, id with
  | DecorationLocation, 21 => to_uint32 1
  | DecorationLocation, 22 => to_uint32 2
  | DecorationLocation, 23 => to_uint32 2
  | _, _ => to_uint32 0
  end.

Definition no_resources : ShaderResources :=
  {| uniform_buffers := []; stage_inputs := []; stage_outputs := [];
     sampled_images := []; separate_images := []; separate_samplers := [] |}.

Definition sample_compiler (entry_points : list EntryPoint)
    (resources : ShaderResources) : CompilerMSL :=
  {| get_entry_points_and_stages := entry_points;
     get_shader_resources := resources;
     get_type := sample_types;
     get_name := sample_names;
     get_decoration := sample_decorations;
     get_automatic_msl_resource_binding := λ _, to_uint32 0;
     get_automatic_msl_resource_binding_secondary := λ _, to_uint32 0;
     get_automatic_msl_resource_binding_tertiary := λ _, to_uint32 0;
     get_automatic_msl_resource_binding_quaternary := λ _, to_uint32 0 |}.

Definition vertex_main : EntryPoint :=
  {| ep_name := "main"; execution_model := ExecutionModelVertex |}.
Definition fragment_main : EntryPoint :=
  {| ep_name := "main"; execution_model := ExecutionModelFragment |}.

Definition position_input : Resource :=
  {| res_id := 20; type_id := 6; res_name := "position" |}.
Definition color_input : Resource :=
  {| res_id := 21; type_id := 3; res_name := "color" |}.

(** A vertex shader with a [vec2] input at location 0 and a [vec4] input at
    location 1. *)
Definition vertex_compiler : CompilerMSL :=
  sample_compiler [vertex_main]
    {| uniform_buffers := []; stage_inputs := [position_input; color_input];
       stage_outputs := []; sampled_images := []; separate_images := [];
       separate_samplers := [] |}.

(** A fragment shader with one resource in each image category. *)
Definition textured_compiler : CompilerMSL :=
  sample_compiler [fragment_main]
    {| uniform_buffers := []; stage_inputs := []; stage_outputs := [];
       sampled_images := [{| res_id := 30; type_id := 7; res_name := "tex" |}];
       separate_images := [{| res_id := 31; type_id := 7; res_name := "img" |}];
       separate_samplers :=
         [{| res_id := 32; type_id := 7; res_name := "smp" |}] |}.

Definition plain_compiler : CompilerMSL :=
  sample_compiler [fragment_main] no_resources.

(** A module without entry point. *)
Definition empty_compiler : CompilerMSL := sample_compiler [] no_resources.

(** The member of struct 42 is named; nothing else is. *)
Definition sample_meta : gmap ID Meta :=
  {[ 42 := {| members := [{| alias := "albedo" |}] |} ]}.

Definition sample_ir (types : list TypeID) : ParsedIR :=
  {| typed_ids := sample_types <$> types; meta := sample_meta |}.

Definition sample_options : Options :=
  {| shader_name := "sample"; header_file_name := "sample.h" |}.

Definition sample_codegen : CodeGen :=
  {| kReflectionHeaderTemplate := "header";
     kReflectionCCTemplate := "cc";
     ConvertToCamelCase := λ s, s;
     inja_render := λ _ _ tmpl _, Some tmpl |}.

Definition initial_world : World :=
  {| sUnnamedMembersID := 0; resources_seen := [] |}.


(** * The claims as the specification words them

    Kept for comparison with what the code does. *)

(** Scalar rule: the padding member is there exactly when the declared bit
    width exceeds 8 times the mapped byte size. *)
Definition scalar_rule_as_stated (host : Host) (ir : ParsedIR)
    (compiler : CompilerMSL) (fuel : nat) (struct_type : SPIRType) (i : nat)
    (member : SPIRType) (result : list StructMember) (total : Z) (w : World)
    : Prop :=
  ∀ known_type,
    ReadKnownScalarType host (basetype member) = Some known_type →
    (columns member : Z) = 1 → (vecsize member : Z) = 1 →
    let excess := width member / 8 - kt_byte_size known_type in
    ∃ name pad_name total' w',
      ReadStructMember host ir compiler fuel struct_type i member result
        total w =
      Returned
        (result ++
         {| sm_type := kt_name known_type; sm_name := name;
            sm_offset := total;
            sm_byte_length := kt_byte_size known_type |} ::
         (if bool_decide (8 * kt_byte_size known_type < width member) then
            [{| sm_type := TypeNameWithPaddingOfSize excess;
                sm_name := pad_name;
                sm_offset := wrap_size (total + kt_byte_size known_type);
                sm_byte_length := excess |}]
          else []),
         total') w'.

(** Deduplication: every struct identifier the type sequence yields has
    exactly one definition in the document. *)
Definition each_struct_defined_once_as_stated (host : Host)
    (options : Options) (ir : ParsedIR) (compiler : CompilerMSL) (fuel : nat)
    (w : World) : Prop :=
  ∀ root w',
    GenerateTemplateArguments host options ir compiler fuel w =
      Returned (Some root) w' →
    ∃ front tagged,
      get_entry_points_and_stages compiler = [front] ∧
      json_get "struct_definitions" root =
        Some (JArray (per_vertex_definitions host compiler front ++
                      emit_tagged tagged)) ∧
      ∀ type,
        type ∈ typed_ids ir →
        basetype (get_type compiler (self type)) = Struct →
        definitions_for (self type) tagged = 1%nat.

(** * Further vocabulary *)

From Stdlib Require Import Ascii.

(** [Reflector::GetReflectionJSON]; [dump] is [nlohmann::json::dump(2u)].
    The source dereferences [template_arguments_] without a test; the last
    case stands for that dereference of a null pointer. *)
Definition GetReflectionJSON (dump : json → string) (r : Reflector)
    : option string :=
  if negb (is_valid_ r) then None
  else
    match template_arguments_ r with
    | Some template_arguments => Some (dump template_arguments)
    | None => None
    end.

(** The marker [ReflectStructDefinition] looks for in struct names. *)
Definition reserved_marker : string := "_RESERVED_IDENTIFIER_".

(** The characters [pretty] prints a natural number with. *)
Definition is_digit (c : ascii) : bool :=
  bool_decide (c ∈ ["0"; "1"; "2"; "3"; "4"; "5"; "6"; "7"; "8"; "9"]%char).

Fixpoint digits_only (s : string) : bool :=
  match s with
  | EmptyString => true
  | String c rest => is_digit c && digits_only rest
  end.

(** The keys of a reflected resource and of a document. *)
Definition resource_keys : gset string :=
  {[ "name"; "descriptor_set"; "binding"; "location"; "index";
     "msl_res_0"; "msl_res_1"; "msl_res_2"; "msl_res_3"; "type" ]}.

Definition document_keys : gset string :=
  {[ "entrypoint"; "shader_name"; "shader_stage"; "header_file_name";
     "uniform_buffers"; "stage_inputs"; "sampled_images"; "stage_outputs";
     "struct_definitions" ]}.

(** The counter after [k] anonymous names have been drawn from [c]. *)
Definition advance (k : nat) (c : Z) : Z :=
  Nat.iter k (λ c, wrap_size (c + 1)) c.

(** The members carry, in order, the anonymous names drawn from the
    counter value [c] on, each with one of the two suffixes of the
    source. *)
Fixpoint anonymous_from (c : Z) (members : list StructMember) : Prop :=
  match members with
  | [] => True
  | member :: rest =>
      (∃ suffix, suffix ∈ [""; "_pad"] ∧
         sm_name member = "unnamed_" +:+ pretty c +:+ suffix) ∧
      anonymous_from (wrap_size (c + 1)) rest
  end.

(** ** More sample data *)

(** What struct 13 is reflected as: a [bool] and 3 bytes of padding. *)
Definition wide_struct : StructDefinition :=
  {| sd_name := "Wide"; sd_byte_length := 4;
     sd_members :=
       [{| sm_type := "bool"; sm_name := "unnamed_0"; sm_offset := 0;
           sm_byte_length := 1 |};
        {| sm_type := "Padding<3>"; sm_name := "unnamed_1_pad";
           sm_offset := 1; sm_byte_length := 3 |}] |}.

(** A stand-in for [nlohmann::json::dump]. *)
Definition sample_dump (j : json) : string := "{}".

(** * Properties *)

(** ** Machine integers *)

Lemma u32_bounds (x : uint32_t) : 0 ≤ x < 2 ^ 32.
Proof.
  destruct x as [v Hv]; simpl. unfold fits32 in Hv.
  apply andb_true_iff in Hv as [H1 H2].
  apply Z.leb_le in H1. apply Z.ltb_lt in H2. done.
Qed.

Lemma usize_bounds (x : size_t) : 0 ≤ x < 2 ^ 64.
Proof.
  destruct x as [v Hv]; simpl. unfold fits_size in Hv.
  apply andb_true_iff in Hv as [H1 H2].
  apply Z.leb_le in H1. apply Z.ltb_lt in H2. done.
Qed.

Lemma wrap32_small z : 0 ≤ z < 2 ^ 32 → wrap32 z = z.
Proof. intros. unfold wrap32. by apply Z.mod_small. Qed.

Lemma wrap_size_small z : 0 ≤ z < 2 ^ 64 → wrap_size z = z.
Proof. intros. unfold wrap_size. by apply Z.mod_small. Qed.


(** ** Runs *)

Lemma bind_run {A B} (m : Run A) (k : A → Run B) (w : World) :
  (m ≫= k) w =
  match m w with
  | Returned a w' => k a w'
  | OutOfFuel => OutOfFuel
  | Aborted => Aborted
  end.
Proof. reflexivity. Qed.

Lemma ret_run {A} (a : A) (w : World) : (mret a : Run A) w = Returned a w.
Proof. reflexivity. Qed.

Section ResourceProperties.

Variable compiler_ : CompilerMSL.

Lemma ReflectType_some type_id : is_Some (ReflectType compiler_ type_id).
Proof. unfold ReflectType. eauto. Qed.

Lemma ReflectResource_some resource : ∃ value, reflects compiler_ resource value.
Proof.
  unfold reflects, ReflectResource.
  destruct (ReflectType compiler_ (type_id resource)) as [type|] eqn:Htype.
  - eexists. intros [n seen]. reflexivity.
  - by destruct (ReflectType_some (type_id resource)) as [? ?].
Qed.

Lemma ReflectResources_from_some resources : ∀ result w,
  ∃ values,
    Forall2 (reflects compiler_) resources values ∧
    ReflectResources_from compiler_ resources result w =
      Returned (Some (result ++ values)) (after_reflecting resources w).
Proof.
  induction resources as [|resource rest IH]; intros result w.
  - exists []. split; [constructor|].
    destruct w. by rewrite app_nil_r.
  - destruct (ReflectResource_some resource) as [value Hvalue].
    destruct (IH (result ++ [value]) (after_reflecting [resource] w))
      as (values & Hvalues & Hrun).
    exists (value :: values). split; [by constructor|].
    simpl. rewrite bind_run, Hvalue, Hrun.
    f_equal.
    + by rewrite <-app_assoc.
    + unfold after_reflecting; simpl. by rewrite <-!app_assoc.
Qed.

Lemma ReflectResources_run resources w :
  ∃ values,
    Forall2 (reflects compiler_) resources values ∧
    ReflectResources compiler_ resources w =
      Returned (Some values) (after_reflecting resources w).
Proof.
  destruct (ReflectResources_from_some resources [] w) as (values & ? & ?).
  by exists values.
Qed.

(** Claim C10: [ReflectType] returns a descriptor for every type
    identifier, so [ReflectResource] returns a value for every resource and
    [ReflectResources] returns the list of these values for every resource
    list, in every world. *)
Theorem ReflectResources_never_fails resources w :
  (∀ type_id, is_Some (ReflectType compiler_ type_id)) ∧
  (∀ resource, ∃ value, reflects compiler_ resource value) ∧
  ∃ values,
    Forall2 (reflects compiler_) resources values ∧
    ReflectResources compiler_ resources w =
      Returned (Some values) (after_reflecting resources w).
Proof.
  split; [apply ReflectType_some|].
  split; [apply ReflectResource_some|].
  apply ReflectResources_run.
Qed.

End ResourceProperties.


Section AssemblyProperties.

Variable host : Host.
Variable options_ : Options.
Variable ir_ : ParsedIR.
Variable compiler_ : CompilerMSL.

(** With exactly one entry point the assembly reflects the six resource
    lists in the order of the source, then walks the types. *)
Lemma GenerateTemplateArguments_run fuel w front :
  get_entry_points_and_stages compiler_ = [front] →
  let res := get_shader_resources compiler_ in
  ∃ ubs ins combined images samplers outs,
    Forall2 (reflects compiler_) (uniform_buffers res) ubs ∧
    Forall2 (reflects compiler_) (stage_inputs res) ins ∧
    Forall2 (reflects compiler_) (sampled_images res) combined ∧
    Forall2 (reflects compiler_) (separate_images res) images ∧
    Forall2 (reflects compiler_) (separate_samplers res) samplers ∧
    Forall2 (reflects compiler_) (stage_outputs res) outs ∧
    GenerateTemplateArguments host options_ ir_ compiler_ fuel w =
      match
        ReflectStructDefinitions_from host ir_ compiler_ fuel (typed_ids ir_)
          ∅ (per_vertex_definitions host compiler_ front)
          (after_reflecting
             (uniform_buffers res ++ stage_inputs res ++ sampled_images res ++
              separate_images res ++ separate_samplers res ++
              stage_outputs res) w)
      with
      | Returned struct_definitions w' =>
          Returned
            (Some (assembled options_ front ubs ins (combined ++ images ++ samplers)
                     outs struct_definitions)) w'
      | OutOfFuel => OutOfFuel
      | Aborted => Aborted
      end.
Proof.
  intros Hentry res.
  unfold GenerateTemplateArguments. rewrite Hentry. simpl.
  fold res.
  destruct (ReflectResources_run compiler_ (uniform_buffers res) w)
    as (ubs & Hubs & Erun1).
  set (w1 := after_reflecting (uniform_buffers res) w) in *.
  destruct (ReflectResources_run compiler_ (stage_inputs res) w1)
    as (ins & Hins & Erun2).
  set (w2 := after_reflecting (stage_inputs res) w1) in *.
  destruct (ReflectResources_run compiler_ (sampled_images res) w2)
    as (combined & Hcombined & Erun3).
  set (w3 := after_reflecting (sampled_images res) w2) in *.
  destruct (ReflectResources_run compiler_ (separate_images res) w3)
    as (images & Himages & Erun4).
  set (w4 := after_reflecting (separate_images res) w3) in *.
  destruct (ReflectResources_run compiler_ (separate_samplers res) w4)
    as (samplers & Hsamplers & Erun5).
  set (w5 := after_reflecting (separate_samplers res) w4) in *.
  destruct (ReflectResources_run compiler_ (stage_outputs res) w5)
    as (outs & Houts & Erun6).
  set (w6 := after_reflecting (stage_outputs res) w5) in *.
  exists ubs, ins, combined, images, samplers, outs.
  repeat (split; [done|]).
  rewrite bind_run, Erun1. rewrite bind_run, Erun2.
  rewrite bind_run, Erun3. rewrite bind_run, Erun4.
  rewrite bind_run, Erun5. rewrite bind_run, Erun6.
  rewrite bind_run.
  replace w6 with (after_reflecting
             (uniform_buffers res ++ stage_inputs res ++ sampled_images res ++
              separate_images res ++ separate_samplers res ++
              stage_outputs res) w).
  2:{ subst w6 w5 w4 w3 w2 w1. unfold after_reflecting; simpl. f_equal.
      rewrite !fmap_app, !rev_app_distr, <-!app_assoc. done. }
  unfold per_vertex_definitions. fold res.
  destruct (ReflectStructDefinitions_from _ _ _ _ _ _ _ _); [|done..].
  rewrite ret_run. unfold assembled.
  by rewrite <-(app_assoc combined).
Qed.

(** Claim C7: in every assembled document, [sampled_images] is the reflected
    combined sampled images, then the reflected separate images, then the
    reflected separate samplers, each in the order of its own resource
    list. *)
Theorem sampled_images_order fuel w root w' :
  GenerateTemplateArguments host options_ ir_ compiler_ fuel w =
    Returned (Some root) w' →
  let res := get_shader_resources compiler_ in
  ∃ combined images samplers,
    Forall2 (reflects compiler_) (sampled_images res) combined ∧
    Forall2 (reflects compiler_) (separate_images res) images ∧
    Forall2 (reflects compiler_) (separate_samplers res) samplers ∧
    json_get "sampled_images" root =
      Some (JArray (combined ++ images ++ samplers)).
Proof.
  intros Hrun res.
  destruct (get_entry_points_and_stages compiler_) as [|front [|]] eqn:Hentry;
    try (unfold GenerateTemplateArguments in Hrun; rewrite Hentry in Hrun;
         by inversion Hrun).
  destruct (GenerateTemplateArguments_run fuel w front Hentry)
    as (ubs & ins & combined & images & samplers & outs &
        _ & _ & Hc & Hi & Hs & _ & E).
  rewrite E in Hrun. clear E.
  exists combined, images, samplers. repeat (split; [done|]).
  destruct (ReflectStructDefinitions_from _ _ _ _ _ _ _ _); [|done..].
  inversion Hrun; subst. unfold assembled, json_get.
  rewrite !lookup_insert_ne by done. by rewrite lookup_insert_eq.
Qed.

(** Claim C8: when the module does not have exactly one entry point,
    [GenerateTemplateArguments] returns no document and leaves the world as
    it found it (no resource has been reflected, no name drawn), and the
    constructed [Reflector] has no header, no implementation and is not
    valid. *)
Theorem entrypoint_count_is_fatal codegen ir fuel w :
  length (get_entry_points_and_stages compiler_) ≠ 1%nat →
  GenerateTemplateArguments host options_ ir_ compiler_ fuel w =
    Returned None w ∧
  ∃ r,
    Reflector_ctor host codegen options_ ir (Some compiler_) fuel w =
      Returned r w ∧
    GetReflectionHeader r = None ∧
    GetReflectionCC r = None ∧
    IsValid r = false.
Proof.
  intros Hcount.
  assert (Hgta : ∀ ir', GenerateTemplateArguments host options_ ir' compiler_
                          fuel w = Returned None w).
  { intros ir'. unfold GenerateTemplateArguments.
    by rewrite bool_decide_eq_true_2. }
  split; [apply Hgta|].
  destruct ir as [ir|]; simpl.
  - rewrite bind_run, Hgta. eexists. by split.
  - eexists. by split.
Qed.

End AssemblyProperties.


Section NameProperties.

Variable ir_ : ParsedIR.
Variable compiler_ : CompilerMSL.

Lemma alias_chain_underlying t n u :
  alias_chain compiler_ t n u → type_alias u = 0.
Proof. induction 1; auto. Qed.

Lemma alias_chain_functional t n u n' u' :
  alias_chain compiler_ t n u → alias_chain compiler_ t n' u' → n = n' ∧ u = u'.
Proof.
  intros H. revert n' u'.
  induction H as [t Ht|t n u Ht _ IH]; intros n' u' H';
    inversion H' as [|? ? ? ? Hrest]; subst; try done.
  destruct (IH _ _ Hrest) as [-> ->]. done.
Qed.

Lemma GetMemberNameAtIndexIfExists_fuel_short t n u index fuel :
  alias_chain compiler_ t n u → (fuel ≤ n)%nat →
  GetMemberNameAtIndexIfExists ir_ compiler_ fuel t index = None.
Proof.
  intros H. revert fuel.
  induction H as [t Ht|t n u Ht _ IH]; intros fuel Hfuel.
  - by replace fuel with O by lia.
  - destruct fuel as [|fuel]; [done|]. simpl.
    rewrite bool_decide_eq_true_2 by done. apply IH. lia.
Qed.

Lemma GetMemberNameAtIndexIfExists_forwards t n u index fuel :
  alias_chain compiler_ t n u → (n < fuel)%nat →
  GetMemberNameAtIndexIfExists ir_ compiler_ fuel t index =
  GetMemberNameAtIndexIfExists ir_ compiler_ 1 u index.
Proof.
  intros H. revert fuel.
  induction H as [t Ht|t n u Ht _ IH]; intros fuel Hfuel.
  - destruct fuel as [|fuel]; [lia|]. simpl.
    by rewrite bool_decide_eq_false_2 by (by intros []).
  - destruct fuel as [|fuel]; [lia|]. simpl.
    rewrite bool_decide_eq_true_2 by done. apply IH. lia.
Qed.

Lemma GetMemberNameAtIndexIfExists_unaliased u index :
  type_alias u = 0 →
  ∃ r, GetMemberNameAtIndexIfExists ir_ compiler_ 1 u index = Some r ∧
       (∀ a, r = Some a ↔ declared_alias ir_ u index a).
Proof.
  intros Hu. simpl. rewrite bool_decide_eq_false_2 by (by intros []).
  eexists. split; [done|]. intros a.
  destruct (meta ir_ !! self u) as [found|] eqn:Hfound.
  - destruct (members found !! index) as [member|] eqn:Hmember.
    + case_bool_decide as Halias.
      * split.
        -- intros [= <-]. by econstructor.
        -- intros [found' member' Hf Hm Ha _]. congruence.
      * split; [done|].
        intros [found' member' Hf Hm Ha Hne].
        destruct Halias. congruence.
    + split; [done|]. intros [found' member' Hf Hm _ _]. congruence.
  - split; [done|]. intros [found' member' Hf _ _ _]. congruence.
Qed.

(** Claim C9: on a type whose alias chain reaches, after [n] aliased types, a
    type [u] with alias id 0, the lookup returns as soon as the recursion
    budget exceeds [n]; it is forwarded through every aliased type (a
    budget of [n] or less does not reach the end), and its result is the
    member alias declared for the underlying type [u] at that index when
    there is one, and no name otherwise. *)
Theorem GetMemberNameAtIndexIfExists_terminates t n u index :
  alias_chain compiler_ t n u →
  (∀ fuel, (fuel ≤ n)%nat →
     GetMemberNameAtIndexIfExists ir_ compiler_ fuel t index = None) ∧
  ∃ r,
    (∀ fuel, (n < fuel)%nat →
       GetMemberNameAtIndexIfExists ir_ compiler_ fuel t index = Some r) ∧
    (∀ a, r = Some a ↔ declared_alias ir_ u index a).
Proof.
  intros Hchain. split.
  - intros fuel. by apply GetMemberNameAtIndexIfExists_fuel_short with u.
  - destruct (GetMemberNameAtIndexIfExists_unaliased u index)
      as (r & Hr & Hdecl); [by eapply alias_chain_underlying|].
    exists r. split; [|done].
    intros fuel Hfuel.
    by rewrite (GetMemberNameAtIndexIfExists_forwards t n u).
Qed.

(** With enough budget [GetMemberNameAtIndex] returns: the declared alias
    and an unchanged world, or the next anonymous name. *)
Lemma GetMemberNameAtIndex_returns t n u index suffix fuel w :
  alias_chain compiler_ t n u → (n < fuel)%nat →
  ∃ name w',
    GetMemberNameAtIndex ir_ compiler_ fuel t index suffix w =
      Returned name w' ∧
    resources_seen w' = resources_seen w.
Proof.
  intros Hchain Hfuel.
  destruct (GetMemberNameAtIndexIfExists_unaliased u index)
    as (r & Hr & _); [by eapply alias_chain_underlying|].
  unfold GetMemberNameAtIndex.
  rewrite (GetMemberNameAtIndexIfExists_forwards t n u) by done. rewrite Hr.
  destruct r as [name|]; [by exists name, w|].
  eexists _, _. by split.
Qed.

End NameProperties.


Section PerVertexProperties.

Variable host : Host.
Variable compiler_ : CompilerMSL.

Lemma location_of_bounds input : 0 ≤ location_of compiler_ input < 2 ^ 32.
Proof. unfold location_of. apply u32_bounds. Qed.

Lemma collect_locations_spec stage_inputs : ∀ locations : gset Z,
  match collect_locations compiler_ stage_inputs locations with
  | Some locations' =>
      NoDup (locations_of compiler_ stage_inputs) ∧
      (∀ x, x ∈ locations' ↔ x ∈ locations_of compiler_ stage_inputs ∨ x ∈ locations) ∧
      size locations' = (length stage_inputs + size locations)%nat
  | None =>
      ¬ (NoDup (locations_of compiler_ stage_inputs) ∧
         ∀ x, x ∈ locations_of compiler_ stage_inputs → x ∉ locations)
  end.
Proof.
  induction stage_inputs as [|input rest IH]; intros locations; simpl.
  - split; [constructor|]. split; [set_solver|done].
  - case_bool_decide as Hin.
    + intros [_ Hfresh]. apply (Hfresh (location_of compiler_ input)); [|done].
      set_solver.
    + specialize (IH ({[location_of compiler_ input]} ∪ locations)).
      destruct (collect_locations _ _ _) as [locations'|].
      * destruct IH as (Hnodup & Hmem & Hsize). split_and!.
        -- apply NoDup_cons. split; [|done].
           intros Hdup.
           (* were the location among the rest, the set would be too small *)
           revert Hsize.
           rewrite size_union by set_solver. rewrite size_singleton.
           intros Hsize.
           assert (locations' ⊆ list_to_set (locations_of compiler_ rest) ∪ locations)
             as Hsub.
           { intros x Hx. apply Hmem in Hx as [Hx|Hx]; [set_solver|].
             apply elem_of_union in Hx as [Hx|Hx]; [|set_solver].
             apply elem_of_singleton in Hx as ->. set_solver. }
           apply subseteq_size in Hsub.
           pose proof (size_union_alt (list_to_set (locations_of compiler_ rest) : gset Z)
                         locations) as Hu.
           assert (size (list_to_set (locations_of compiler_ rest) : gset Z) =
                   length rest) as Hl.
           { rewrite size_list_to_set by done.
             unfold locations_of. by rewrite length_fmap. }
           assert (size (locations ∖ list_to_set (locations_of compiler_ rest))
                   ≤ size locations)%nat
             by (apply subseteq_size; set_solver).
           lia.
        -- intros x. rewrite Hmem. set_solver.
        -- rewrite Hsize. rewrite size_union by set_solver.
           rewrite size_singleton. lia.
      * intros [Hnodup Hfresh]. apply IH.
        apply NoDup_cons in Hnodup as [Hnotin Hnodup].
        split; [done|]. intros x Hx.
        apply not_elem_of_union. split.
        -- intros ->%elem_of_singleton. done.
        -- apply Hfresh. set_solver.
Qed.

Lemma locations_contiguous_spec (locations : gset Z) :
  locations_contiguous locations = true ↔
  ∀ i : nat, (i < size locations)%nat → wrap32 (Z.of_nat i) ∈ locations.
Proof.
  unfold locations_contiguous. rewrite forallb_forall. split.
  - intros H i Hi. specialize (H i). rewrite in_seq in H.
    eapply bool_decide_eq_true_1, H. lia.
  - intros H i Hi. apply in_seq in Hi. apply bool_decide_eq_true_2, H. lia.
Qed.

Lemma input_for_location_spec stage_inputs queried_location :
  match input_for_location compiler_ stage_inputs queried_location with
  | Some input =>
      input ∈ stage_inputs ∧ location_of compiler_ input = queried_location
  | None => queried_location ∉ locations_of compiler_ stage_inputs
  end.
Proof.
  induction stage_inputs as [|input rest IH]; simpl.
  - set_solver.
  - case_bool_decide as Hloc.
    + split; [set_solver|done].
    + destruct (input_for_location _ _ _).
      * set_solver.
      * unfold locations_of in *. set_solver.
Qed.

Lemma per_vertex_members_spec stage_inputs indices : ∀ struc,
  is_Some (per_vertex_members host compiler_ stage_inputs indices struc) ↔
  ∀ i : nat, i ∈ indices → wrap32 (Z.of_nat i) ∈ locations_of compiler_ stage_inputs.
Proof.
  induction indices as [|i rest IH]; intros struc; simpl.
  - split; [set_solver|eauto].
  - pose proof (input_for_location_spec stage_inputs (wrap32 (Z.of_nat i)))
      as Hfind.
    destruct (input_for_location _ _ _) as [resource|].
    + rewrite IH. destruct Hfind as [Hin Hloc]. split.
      * intros H j [->|Hj]%elem_of_cons; [|by apply H].
        rewrite <-Hloc. unfold locations_of. set_solver.
      * intros H j Hj. apply H. set_solver.
    + split; [by intros [? ?]|].
      intros H. destruct Hfind. apply H. set_solver.
Qed.

(** A set of 32-bit values has at most [2 ^ 32] elements. *)
Lemma size_u32_set (locations : gset Z) :
  (∀ x, x ∈ locations → 0 ≤ x < 2 ^ 32) →
  Z.of_nat (size locations) ≤ 2 ^ 32.
Proof.
  intros Hrange.
  assert (locations ⊆ list_to_set (seqZ 0 (2 ^ 32))) as Hsub.
  { intros x Hx. apply elem_of_list_to_set, elem_of_seqZ.
    specialize (Hrange x Hx). lia. }
  apply subseteq_size in Hsub.
  rewrite size_list_to_set in Hsub by apply NoDup_seqZ.
  rewrite length_seqZ in Hsub. lia.
Qed.

(** Claim C3: the synthesis returns a structure exactly when the stage-input
    list is not empty, no location is declared twice, and the declared
    locations are the numbers below the number of inputs. *)
Theorem ReflectPerVertexStructDefinition_iff stage_inputs :
  is_Some (ReflectPerVertexStructDefinition host compiler_ stage_inputs) ↔
  stage_inputs ≠ [] ∧
  NoDup (locations_of compiler_ stage_inputs) ∧
  ∀ x, x ∈ locations_of compiler_ stage_inputs ↔
       0 ≤ x < Z.of_nat (length stage_inputs).
Proof.
  unfold ReflectPerVertexStructDefinition.
  case_bool_decide as Hempty.
  { split; [by intros [? ?]|]. by intros [? _]. }
  pose proof (collect_locations_spec stage_inputs ∅) as Hcollect.
  destruct (collect_locations _ _ _) as [locations|].
  2:{ split; [by intros [? ?]|]. intros (_ & Hnodup & _).
      destruct Hcollect. split; [done|set_solver]. }
  destruct Hcollect as (Hnodup & Hmem & Hsize).
  rewrite size_empty, Nat.add_0_r in Hsize.
  assert (Hmem' : ∀ x, x ∈ locations ↔ x ∈ locations_of compiler_ stage_inputs)
    by (intros x; rewrite Hmem; set_solver).
  assert (Hk : Z.of_nat (length stage_inputs) ≤ 2 ^ 32).
  { rewrite <-Hsize. apply size_u32_set. intros x Hx.
    apply Hmem' in Hx. unfold locations_of in Hx.
    apply list_elem_of_fmap in Hx as (input & -> & _).
    apply location_of_bounds. }
  destruct (locations_contiguous locations) eqn:Hcontig; simpl.
  - pose proof (proj1 (locations_contiguous_spec _) Hcontig) as Hbelow.
    assert (Hall : ∀ i : nat, (i < length stage_inputs)%nat →
                     Z.of_nat i ∈ locations).
    { intros i Hi. rewrite <-(wrap32_small (Z.of_nat i)) by lia.
      apply Hbelow. lia. }
    split.
    + intros _. split_and!; [done..|].
      (* the numbers below k are k distinct members of a set of size k *)
      assert (list_to_set (seqZ 0 (Z.of_nat (length stage_inputs)))
                = locations) as <-.
      { apply set_subseteq_size_eq.
        - intros x [? ?]%elem_of_list_to_set%elem_of_seqZ.
          replace x with (Z.of_nat (Z.to_nat x)) by lia.
          apply Hall. lia.
        - rewrite size_list_to_set by apply NoDup_seqZ.
          rewrite length_seqZ. lia. }
      intros x. rewrite <-Hmem', elem_of_list_to_set, elem_of_seqZ. lia.
    + intros _. apply per_vertex_members_spec.
      intros i Hi%elem_of_seq. apply Hmem'.
      rewrite wrap32_small by lia. apply Hall. lia.
  - split; [by intros [? ?]|].
    intros (_ & _ & Hexact).
    apply not_true_iff_false in Hcontig. destruct Hcontig.
    apply locations_contiguous_spec. intros i Hi.
    rewrite wrap32_small by lia.
    apply Hmem', Hexact. lia.
Qed.

End PerVertexProperties.


(** ** Struct layout *)

Lemma bind_Returned_inv {A B} (m : Run A) (k : A → Run B) w b w' :
  (m ≫= k) w = Returned b w' →
  ∃ a w1, m w = Returned a w1 ∧ k a w1 = Returned b w'.
Proof. rewrite bind_run. destruct (m w); [eauto|done..]. Qed.

Lemma members_byte_length_app ms1 ms2 :
  members_byte_length (ms1 ++ ms2) =
  members_byte_length ms1 + members_byte_length ms2.
Proof. induction ms1; simpl; lia. Qed.

Lemma packed_from_app start ms1 ms2 :
  packed_from start (ms1 ++ ms2) ↔
  packed_from start ms1 ∧ packed_from (end_from start ms1) ms2.
Proof.
  revert start. induction ms1 as [|m ms1 IH]; intros start; simpl.
  - tauto.
  - rewrite IH. tauto.
Qed.

Lemma end_from_app start ms1 ms2 :
  end_from start (ms1 ++ ms2) = end_from (end_from start ms1) ms2.
Proof. revert start. induction ms1; intros; simpl; auto. Qed.

Section LayoutProperties.

Variable host : Host.
Variable ir_ : ParsedIR.
Variable compiler_ : CompilerMSL.

Lemma known_type_size_bounds type known_type :
  ReadKnownScalarType host type = Some known_type →
  0 ≤ kt_byte_size known_type < 2 ^ 64.
Proof.
  destruct type; intros [= <-]; simpl;
    try apply usize_bounds; unfold sizeof_uint32_t, sizeof_int32_t; lia.
Qed.

Lemma emplace_one_inv fuel struct_type i suffix (f : string → list StructMember * Z) w x w' :
  (name ← GetMemberNameAtIndex ir_ compiler_ fuel struct_type i suffix;
   mret (f name)) w = Returned x w' →
  ∃ name, x = f name.
Proof.
  intros (name & w1 & _ & Hret)%bind_Returned_inv.
  rewrite ret_run in Hret. injection Hret as <- _. eauto.
Qed.

Ltac split_conditions H :=
  repeat match type of H with
  | context [match ReadKnownScalarType ?h ?t with _ => _ end] =>
      destruct (ReadKnownScalarType h t) eqn:?
  | context [if ?c then _ else _] => destruct c eqn:?
  end.

Ltac split_guards :=
  repeat match goal with
  | H : _ && _ = true |- _ => apply andb_true_iff in H as [? ?]
  | H : bool_decide _ = true |- _ => apply bool_decide_eq_true_1 in H
  | H : bool_decide _ = false |- _ => apply bool_decide_eq_false_1 in H
  end.

Lemma ReadStructMember_emitted fuel struct_type i member result total w
    result' total' w' :
  ReadStructMember host ir_ compiler_ fuel struct_type i member result total w
    = Returned (result', total') w' →
  ∃ new,
    emitted host member total new ∧
    result' = result ++ new ∧
    total' = end_from total new.
Proof.
  unfold ReadStructMember. cbv zeta. intros H.
  split_conditions H; split_guards;
    try (apply emplace_one_inv in H as [name [= -> ->]];
         eexists; split; [by econstructor|done]).
  - apply bind_Returned_inv in H as (name & w1 & _ & H).
    apply emplace_one_inv in H as [pad_name [= -> ->]].
    eexists; split; [by eapply emitted_scalar_padding|].
    by rewrite <-app_assoc.
  - apply bind_Returned_inv in H as (name & w1 & _ & H).
    rewrite ret_run in H. injection H as <- <- _.
    eexists; split; [eapply emitted_scalar; try done|done].
    destruct (decide (wrap_size (width member / 8 - kt_byte_size k) = 0));
      done.
Qed.

Lemma emitted_packed member total new :
  emitted host member total new → packed_from total new.
Proof. destruct 1; simpl; auto. Qed.

Lemma ReadStructMembers_from_laid_out fuel struct_type member_types :
  ∀ i result total w members w',
  ReadStructMembers_from host ir_ compiler_ fuel struct_type i member_types
    result total w = Returned members w' →
  ∃ more,
    members = result ++ more ∧
    laid_out host (get_type compiler_ <$> member_types) total more.
Proof.
  induction member_types as [|member_type rest IH];
    intros i result total w members w' H; simpl in H.
  - rewrite ret_run in H. injection H as <- _.
    exists []. split; [by rewrite app_nil_r|constructor].
  - apply bind_Returned_inv in H as ([result1 total1] & w1 & Hstep & H).
    apply ReadStructMember_emitted in Hstep as (new & Hnew & -> & ->).
    apply IH in H as (more & -> & Hmore).
    exists (new ++ more). split; [by rewrite app_assoc|].
    by constructor.
Qed.

Lemma ReadStructMembers_laid_out fuel type_id w members w' :
  ReadStructMembers host ir_ compiler_ fuel type_id w = Returned members w' →
  laid_out host
    (get_type compiler_ <$> member_types (get_type compiler_ type_id)) 0
    members.
Proof.
  unfold ReadStructMembers.
  intros (_ & w1 & _ & H)%bind_Returned_inv.
  by apply ReadStructMembers_from_laid_out in H as (more & -> & H).
Qed.

Lemma ReflectStructDefinition_laid_out fuel type_id w struc w' :
  ReflectStructDefinition host ir_ compiler_ fuel type_id w =
    Returned (Some struc) w' →
  let type := get_type compiler_ type_id in
  basetype type = Struct ∧
  sd_name struc = get_name compiler_ type_id ∧
  sd_byte_length struc = total_size_from compiler_ (member_types type) 0 ∧
  laid_out host (get_type compiler_ <$> member_types type) 0 (sd_members struc).
Proof.
  unfold ReflectStructDefinition. intros H.
  case_bool_decide as Hstruct; [done|].
  destruct (string_contains _ _); [done|].
  apply bind_Returned_inv in H as (members & w1 & Hmembers & H).
  rewrite ret_run in H. injection H as <- _. simpl.
  split_and!; [done..|]. by eapply ReadStructMembers_laid_out.
Qed.

(** Offsets: every member starts at the running total, which is the sum of
    the lengths before it in [size_t] arithmetic. *)
Lemma laid_out_packed types total members :
  laid_out host types total members → packed_from total members.
Proof.
  induction 1 as [|member rest total new more Hnew _ IH]; [done|].
  apply packed_from_app. split; [by eapply emitted_packed|done].
Qed.

(** Lengths: what each rule appends against the declared size. *)
Lemma emitted_length_mod member total new :
  natural_host host → emitted host member total new →
  wrap_size (members_byte_length new) = declared_size member.
Proof.
  intros (Hfloat & HScalar & HMatrix & HPoint & HVector3 & HVector4) Hnew.
  pose proof (u32_bounds (width member)) as Hwidth.
  assert (Hdecl : 0 ≤ declared_size member < 2 ^ 64).
  { unfold declared_size, wrap32.
    pose proof (Z.mod_pos_bound
      (width member * vecsize member * columns member) (2 ^ 32)
      ltac:(done)).
    split; [apply Z.div_pos; lia|].
    apply Z.div_lt_upper_bound; lia. }
  destruct Hnew as [name Hb Hw Hc Hv|name Hb Hw Hc Hv|name Hb Hw Hc Hv
                   |name Hb Hw Hc Hv|kt name Hk Hc Hv Hpad
                   |kt name pad_name Hk Hc Hv padding Hpad|name byte_length];
    unfold members_byte_length, declared_size in *; simpl;
    rewrite ?Hw, ?Hc, ?Hv, ?Hfloat, ?HScalar, ?HMatrix, ?HPoint, ?HVector3,
      ?HVector4; try done.
  - pose proof (known_type_size_bounds _ _ Hk).
    rewrite Z.mul_1_r, Z.mul_1_r, Z.add_0_r, (wrap32_small (width member))
      by done.
    unfold wrap_size in *.
    apply Z.mod_divide in Hpad; [|done]. destruct Hpad as [q Hq].
    assert (0 ≤ width member / 8 < 2 ^ 32)
      by (split; [apply Z.div_pos; lia|apply Z.div_lt_upper_bound; lia]).
    assert (q = 0) by nia. subst q.
    rewrite Z.mod_small by lia. lia.
  - pose proof (known_type_size_bounds _ _ Hk).
    rewrite Z.mul_1_r, Z.mul_1_r, Z.add_0_r, (wrap32_small (width member))
      by done.
    subst padding. unfold wrap_size.
    assert (0 ≤ width member / 8 < 2 ^ 32)
      by (split; [apply Z.div_pos; lia|apply Z.div_lt_upper_bound; lia]).
    rewrite Zplus_mod_idemp_r.
    replace (kt_byte_size kt + (width member / 8 - kt_byte_size kt))
      with (width member / 8) by lia.
    apply Z.mod_small. lia.
  - subst byte_length. rewrite Z.add_0_r.
    replace (width member * columns member * vecsize member)
      with (width member * vecsize member * columns member) by lia.
    by apply wrap_size_small.
Qed.

Lemma emitted_length_exact member total new :
  natural_host host → no_underflow host member → emitted host member total new →
  members_byte_length new = declared_size member.
Proof.
  intros Hhost Hunder Hnew.
  rewrite <-(emitted_length_mod member total new) by done.
  symmetry. apply wrap_size_small.
  pose proof (u32_bounds (width member)) as Hwidth.
  destruct Hhost as (Hfloat & HScalar & HMatrix & HPoint & HVector3 & HVector4).
  destruct Hnew as [name Hb Hw Hc Hv|name Hb Hw Hc Hv|name Hb Hw Hc Hv
                   |name Hb Hw Hc Hv|kt name Hk Hc Hv Hpad
                   |kt name pad_name Hk Hc Hv padding Hpad|name byte_length];
    unfold members_byte_length; simpl;
    rewrite ?HMatrix, ?HPoint, ?HVector3, ?HVector4; try done.
  - pose proof (known_type_size_bounds _ _ Hk). lia.
  - pose proof (known_type_size_bounds _ _ Hk).
    specialize (Hunder kt Hk Hc Hv).
    assert (0 ≤ width member / 8 < 2 ^ 32)
      by (split; [apply Z.div_pos; lia|apply Z.div_lt_upper_bound; lia]).
    subst padding. rewrite wrap_size_small by lia. lia.
  - subst byte_length. unfold wrap32.
    pose proof (Z.mod_pos_bound
      (width member * columns member * vecsize member) (2 ^ 32)
      ltac:(done)).
    assert (0 ≤ (width member * columns member * vecsize member) `mod` 2 ^ 32 / 8
            < 2 ^ 32)
      by (split; [apply Z.div_pos; lia|apply Z.div_lt_upper_bound; lia]).
    lia.
Qed.

Lemma declared_size_bounds type : 0 ≤ declared_size type < 2 ^ 29.
Proof.
  unfold declared_size, wrap32.
  pose proof (Z.mod_pos_bound
    (width type * vecsize type * columns type) (2 ^ 32) ltac:(done)).
  split; [apply Z.div_pos; lia|apply Z.div_lt_upper_bound; lia].
Qed.

Lemma total_size_from_sum member_types : ∀ total,
  total_size_from compiler_ member_types (wrap_size total) =
  wrap_size (total + declared_total (get_type compiler_ <$> member_types)).
Proof.
  induction member_types as [|member_type rest IH]; intros total; simpl.
  - by rewrite Z.add_0_r.
  - rewrite IH. unfold wrap_size.
    rewrite <-Z.add_assoc. by rewrite Zplus_mod_idemp_l.
Qed.

Lemma laid_out_length_mod types total members :
  natural_host host → laid_out host types total members →
  wrap_size (members_byte_length members) = wrap_size (declared_total types).
Proof.
  intros Hhost.
  induction 1 as [|member rest total new more Hnew _ IH]; [done|].
  rewrite members_byte_length_app. simpl.
  apply (emitted_length_mod _ _ _ Hhost) in Hnew.
  unfold wrap_size in *.
  rewrite Zplus_mod, Hnew, IH. by rewrite Zplus_mod_idemp_r.
Qed.

Lemma laid_out_length_exact types total members :
  natural_host host → Forall (no_underflow host) types → laid_out host types total members →
  members_byte_length members = declared_total types.
Proof.
  intros Hhost Hunder Hlaid. revert Hunder.
  induction Hlaid as [|member rest total new more Hnew _ IH]; [done|].
  intros [Hmember Hrest]%Forall_cons.
  rewrite members_byte_length_app. simpl.
  rewrite (emitted_length_exact member total new), IH; done.
Qed.

Lemma emitted_lengths_nonneg member total new :
  emitted host member total new → Forall (λ m, 0 ≤ sm_byte_length m) new.
Proof.
  destruct 1 as [| | | |kt ? Hk|kt ? ? Hk ? ? padding|? byte_length];
    repeat constructor; simpl; try apply usize_bounds.
  - by apply (known_type_size_bounds _ _ Hk).
  - by apply (known_type_size_bounds _ _ Hk).
  - subst padding. unfold wrap_size. by apply Z.mod_pos_bound.
  - subst byte_length. unfold wrap32.
    apply Z.div_pos; [|done]. by apply Z.mod_pos_bound.
Qed.

Lemma laid_out_lengths_nonneg types total members :
  laid_out host types total members → Forall (λ m, 0 ≤ sm_byte_length m) members.
Proof.
  induction 1 as [|member rest total new more Hnew _ IH]; [constructor|].
  apply Forall_app. split; [by eapply emitted_lengths_nonneg|done].
Qed.

End LayoutProperties.

(** Without wrap-around the two readings of the offsets agree. *)
Lemma packed_contiguous members : ∀ start,
  0 ≤ start →
  Forall (λ m, 0 ≤ sm_byte_length m) members →
  start + members_byte_length members < 2 ^ 64 →
  packed_from start members → contiguous_from start members.
Proof.
  induction members as [|m rest IH]; intros start Hstart Hpos Hfit; [done|].
  apply Forall_cons in Hpos as [Hm Hrest]. simpl in *.
  assert (0 ≤ members_byte_length rest).
  { clear -Hrest. induction Hrest; simpl; [done|lia]. }
  rewrite wrap_size_small by lia.
  intros [Hoff Hpacked]. split; [done|]. apply IH; [lia|done|lia|done].
Qed.


Section StructProperties.

Variable host : Host.
Variable ir_ : ParsedIR.
Variable compiler_ : CompilerMSL.

(** The offsets of a reflected struct follow the running [size_t] total. *)
Lemma ReflectStructDefinition_packed fuel type_id w struc w' :
  ReflectStructDefinition host ir_ compiler_ fuel type_id w =
    Returned (Some struc) w' →
  packed_from 0 (sd_members struc).
Proof.
  intros (_ & _ & _ & Hlaid)%ReflectStructDefinition_laid_out.
  by eapply laid_out_packed.
Qed.

(** On a host with the natural sizes, the declared length and the sum of
    the member lengths agree in [size_t] arithmetic. *)
Lemma ReflectStructDefinition_length_mod fuel type_id w struc w' :
  natural_host host →
  ReflectStructDefinition host ir_ compiler_ fuel type_id w =
    Returned (Some struc) w' →
  sd_byte_length struc = wrap_size (members_byte_length (sd_members struc)).
Proof.
  intros Hhost (_ & _ & -> & Hlaid)%ReflectStructDefinition_laid_out.
  rewrite (laid_out_length_mod host _ _ _ Hhost Hlaid).
  apply (total_size_from_sum compiler_ _ 0).
Qed.

(** They agree as numbers when no scalar member is declared narrower than
    its host type and the declared sizes fit [size_t]; the offsets are then
    the plain sums. *)
Lemma ReflectStructDefinition_exact fuel type_id w struc w' :
  natural_host host →
  let types :=
    get_type compiler_ <$> member_types (get_type compiler_ type_id) in
  Forall (no_underflow host) types →
  declared_total types < 2 ^ 64 →
  ReflectStructDefinition host ir_ compiler_ fuel type_id w =
    Returned (Some struc) w' →
  sd_byte_length struc = members_byte_length (sd_members struc) ∧
  contiguous_from 0 (sd_members struc).
Proof.
  intros Hhost types Hunder Hfit
    (_ & _ & Hlen & Hlaid)%ReflectStructDefinition_laid_out.
  fold types in Hlen, Hlaid.
  pose proof (laid_out_length_exact host _ _ _ Hhost Hunder Hlaid) as Hsum.
  assert (0 ≤ declared_total types).
  { clear. induction types; simpl; [done|].
    pose proof (declared_size_bounds a). lia. }
  split.
  - rewrite Hlen, Hsum. rewrite (total_size_from_sum compiler_ _ 0).
    apply wrap_size_small. fold types. lia.
  - apply packed_contiguous; [done| |lia|].
    + by eapply laid_out_lengths_nonneg.
    + by eapply laid_out_packed.
Qed.

(** The scalar rule, run forward: a recognized scalar member with one
    column and one component whose width in bytes is not below the mapped
    size. *)
Lemma ReadStructMember_scalar fuel struct_type n u i member known_type
    result total w :
  alias_chain compiler_ struct_type n u → (n < fuel)%nat →
  ReadKnownScalarType host (basetype member) = Some known_type →
  (columns member : Z) = 1 → (vecsize member : Z) = 1 →
  kt_byte_size known_type ≤ width member / 8 →
  let excess := width member / 8 - kt_byte_size known_type in
  ∃ name pad_name total' w',
    ReadStructMember host ir_ compiler_ fuel struct_type i member result
      total w =
    Returned
      (result ++
       {| sm_type := kt_name known_type; sm_name := name; sm_offset := total;
          sm_byte_length := kt_byte_size known_type |} ::
       (if bool_decide (0 < excess) then
          [{| sm_type := TypeNameWithPaddingOfSize excess;
              sm_name := pad_name;
              sm_offset := wrap_size (total + kt_byte_size known_type);
              sm_byte_length := excess |}]
        else []),
       total') w'.
Proof.
  intros Hchain Hfuel Hknown Hc Hv Hle excess.
  pose proof (u32_bounds (width member)) as Hwidth.
  pose proof (known_type_size_bounds host _ _ Hknown) as Hsize.
  assert (0 ≤ width member / 8 < 2 ^ 32)
    by (split; [apply Z.div_pos; lia|apply Z.div_lt_upper_bound; lia]).
  unfold ReadStructMember. cbv zeta.
  rewrite (bool_decide_eq_false_2 ((columns member : Z) = 4)) by lia.
  rewrite (bool_decide_eq_false_2 ((vecsize member : Z) = 2)) by lia.
  rewrite (bool_decide_eq_false_2 ((vecsize member : Z) = 3)) by lia.
  rewrite (bool_decide_eq_false_2 ((vecsize member : Z) = 4)) by lia.
  rewrite !andb_false_r. simpl.
  rewrite Hknown.
  rewrite (bool_decide_eq_true_2 ((columns member : Z) = 1)) by done.
  rewrite (bool_decide_eq_true_2 ((vecsize member : Z) = 1)) by done.
  simpl.
  destruct (GetMemberNameAtIndex_returns ir_ compiler_ struct_type n u i ""
              fuel w Hchain Hfuel) as (name & w1 & Hname & _).
  rewrite bind_run, Hname.
  rewrite (wrap_size_small (width member / 8 - kt_byte_size known_type))
    by lia.
  fold excess.
  case_bool_decide as Hpad.
  - destruct (GetMemberNameAtIndex_returns ir_ compiler_ struct_type n u i
                "_pad" fuel w1 Hchain Hfuel) as (pad_name & w2 & Hpadname & _).
    rewrite bind_run, Hpadname, ret_run.
    rewrite bool_decide_eq_true_2 by lia.
    exists name, pad_name. eexists _, _.
    by rewrite <-app_assoc.
  - rewrite ret_run. rewrite bool_decide_eq_false_2 by lia.
    exists name, "". by eexists _, _.
Qed.

(** The other side of the scalar rule: when the width in whole bytes is
    below the mapped size, the subtraction wraps and a padding member of
    almost [2 ^ 64] bytes follows the scalar. *)
Lemma ReadStructMember_scalar_underflow fuel struct_type n u i member
    known_type result total w :
  alias_chain compiler_ struct_type n u → (n < fuel)%nat →
  ReadKnownScalarType host (basetype member) = Some known_type →
  (columns member : Z) = 1 → (vecsize member : Z) = 1 →
  width member / 8 < kt_byte_size known_type →
  let padding := 2 ^ 64 + width member / 8 - kt_byte_size known_type in
  ∃ name pad_name total' w',
    ReadStructMember host ir_ compiler_ fuel struct_type i member result
      total w =
    Returned
      (result ++
       [{| sm_type := kt_name known_type; sm_name := name; sm_offset := total;
           sm_byte_length := kt_byte_size known_type |};
        {| sm_type := TypeNameWithPaddingOfSize padding;
           sm_name := pad_name;
           sm_offset := wrap_size (total + kt_byte_size known_type);
           sm_byte_length := padding |}],
       total') w'.
Proof.
  intros Hchain Hfuel Hknown Hc Hv Hlt padding.
  pose proof (u32_bounds (width member)) as Hwidth.
  pose proof (known_type_size_bounds host _ _ Hknown) as Hsize.
  assert (0 ≤ width member / 8 < 2 ^ 32)
    by (split; [apply Z.div_pos; lia|apply Z.div_lt_upper_bound; lia]).
  unfold ReadStructMember. cbv zeta.
  rewrite (bool_decide_eq_false_2 ((columns member : Z) = 4)) by lia.
  rewrite (bool_decide_eq_false_2 ((vecsize member : Z) = 2)) by lia.
  rewrite (bool_decide_eq_false_2 ((vecsize member : Z) = 3)) by lia.
  rewrite (bool_decide_eq_false_2 ((vecsize member : Z) = 4)) by lia.
  rewrite !andb_false_r. simpl.
  rewrite Hknown.
  rewrite (bool_decide_eq_true_2 ((columns member : Z) = 1)) by done.
  rewrite (bool_decide_eq_true_2 ((vecsize member : Z) = 1)) by done.
  simpl.
  destruct (GetMemberNameAtIndex_returns ir_ compiler_ struct_type n u i ""
              fuel w Hchain Hfuel) as (name & w1 & Hname & _).
  rewrite bind_run, Hname.
  assert (Hwrap : wrap_size (width member / 8 - kt_byte_size known_type)
                  = padding).
  { unfold wrap_size, padding.
    rewrite <-(Z_mod_plus_full _ 1).
    rewrite Z.mod_small by lia. lia. }
  rewrite Hwrap.
  rewrite bool_decide_eq_true_2 by (unfold padding; lia).
  destruct (GetMemberNameAtIndex_returns ir_ compiler_ struct_type n u i
              "_pad" fuel w1 Hchain Hfuel) as (pad_name & w2 & Hpadname & _).
  rewrite bind_run, Hpadname, ret_run.
  exists name, pad_name. eexists _, _.
  by rewrite <-app_assoc.
Qed.

(** Extra X29: the scalar rule where the subtraction does not wrap.  For a
    recognized scalar member with one column and one component whose
    declared width in whole bytes is at least the mapped byte size, the
    iteration of the loop of [ReadStructMembers] appends the mapped scalar
    member and, exactly when the width in whole bytes exceeds the mapped
    size, one padding member right after it whose length is the excess; a
    boolean declared at 32 bits on a host whose [bool] is smaller than 4
    bytes gets a [bool] member and a padding member of [4 - sizeof(bool)]
    bytes. *)
Theorem scalar_member_rule fuel struct_type n u i member known_type
    result total w :
  alias_chain compiler_ struct_type n u → (n < fuel)%nat →
  ReadKnownScalarType host (basetype member) = Some known_type →
  (columns member : Z) = 1 → (vecsize member : Z) = 1 →
  kt_byte_size known_type ≤ width member / 8 →
  let excess := width member / 8 - kt_byte_size known_type in
  (∃ name pad_name total' w',
    ReadStructMember host ir_ compiler_ fuel struct_type i member result
      total w =
    Returned
      (result ++
       {| sm_type := kt_name known_type; sm_name := name; sm_offset := total;
          sm_byte_length := kt_byte_size known_type |} ::
       (if bool_decide (0 < excess) then
          [{| sm_type := TypeNameWithPaddingOfSize excess;
              sm_name := pad_name;
              sm_offset := wrap_size (total + kt_byte_size known_type);
              sm_byte_length := excess |}]
        else []),
       total') w') ∧
  (basetype member = Boolean → (width member : Z) = 32 →
   sizeof_bool host < 4 →
   kt_name known_type = "bool" ∧ 0 < excess ∧
   excess = 4 - sizeof_bool host).
Proof.
  intros Hchain Hfuel Hknown Hc Hv Hle excess. split.
  - by eapply ReadStructMember_scalar.
  - intros Hbool Hwidth Hsize. rewrite Hbool in Hknown.
    injection Hknown as <-. subst excess. simpl. rewrite Hwidth.
    change (32 / 8) with 4. split; [done|lia].
Qed.

End StructProperties.


Lemma end_from_exact members : ∀ start,
  0 ≤ start →
  Forall (λ m, 0 ≤ sm_byte_length m) members →
  start + members_byte_length members < 2 ^ 64 →
  end_from start members = start + members_byte_length members.
Proof.
  induction members as [|m rest IH]; intros start Hstart Hpos Hfit; simpl.
  - lia.
  - apply Forall_cons in Hpos as [Hm Hrest]. simpl in *.
    assert (0 ≤ members_byte_length rest).
    { clear -Hrest. induction Hrest; simpl; [done|lia]. }
    rewrite wrap_size_small by lia. rewrite IH by (done || lia). lia.
Qed.

Lemma members_byte_length_bound (bound : Z) members :
  Forall (λ m, 0 ≤ sm_byte_length m < bound) members →
  0 ≤ members_byte_length members ≤ bound * Z.of_nat (length members).
Proof. induction 1; simpl; lia. Qed.

Section PerVertexLayout.

Variable host : Host.
Variable compiler_ : CompilerMSL.

Lemma VertexTypeFromInputResource_length resource :
  0 ≤ vt_byte_length (VertexTypeFromInputResource host compiler_ resource)
    < 2 ^ 29.
Proof.
  unfold VertexTypeFromInputResource; simpl. unfold wrap32.
  set (type := get_type compiler_ (type_id resource)).
  pose proof (Z.mod_pos_bound
    (columns type * vecsize type * width type) (2 ^ 32) ltac:(done)).
  split; [apply Z.div_pos; lia|apply Z.div_lt_upper_bound; lia].
Qed.

Lemma per_vertex_members_appends stage_inputs indices : ∀ struc struc',
  per_vertex_members host compiler_ stage_inputs indices struc = Some struc' →
  ∃ more,
    sd_members struc' = sd_members struc ++ more ∧
    length more = length indices ∧
    Forall (λ m, 0 ≤ sm_byte_length m < 2 ^ 29) more ∧
    packed_from (sd_byte_length struc) more ∧
    sd_byte_length struc' = end_from (sd_byte_length struc) more ∧
    sd_name struc' = sd_name struc.
Proof.
  induction indices as [|i rest IH]; intros struc struc' H; simpl in H.
  - injection H as <-. exists []. by rewrite app_nil_r.
  - destruct (input_for_location _ _ _) as [resource|]; [|done].
    apply IH in H as (more & Hmembers & Hlength & Hbound & Hpacked & Hend & Hname).
    simpl in *.
    eexists (_ :: more). rewrite Hmembers, <-app_assoc. simpl.
    split_and!; try done.
    + by rewrite Hlength.
    + constructor; [|done]. apply VertexTypeFromInputResource_length.
Qed.

(** The synthesized structure: one member per input, each at the plain sum
    of the lengths before it, and a total that is the sum of all. *)
Lemma ReflectPerVertexStructDefinition_layout stage_inputs struc :
  ReflectPerVertexStructDefinition host compiler_ stage_inputs = Some struc →
  sd_name struc = "PerVertexData" ∧
  length (sd_members struc) = length stage_inputs ∧
  contiguous_from 0 (sd_members struc) ∧
  sd_byte_length struc = members_byte_length (sd_members struc).
Proof.
  unfold ReflectPerVertexStructDefinition. intros H.
  case_bool_decide; [done|].
  pose proof (collect_locations_spec compiler_ stage_inputs ∅) as Hcollect.
  destruct (collect_locations _ _ _) as [locations|]; [|done].
  destruct Hcollect as (_ & Hmem & Hsize).
  rewrite size_empty, Nat.add_0_r in Hsize.
  destruct (locations_contiguous locations); [|done]. simpl in H.
  apply per_vertex_members_appends in H
    as (more & Hmembers & Hlength & Hbound & Hpacked & Hend & Hname).
  simpl in *. subst more. rewrite length_seq in Hlength.
  assert (Hk : Z.of_nat (size locations) ≤ 2 ^ 32).
  { apply size_u32_set. intros x [Hx|Hx]%Hmem; [|set_solver].
    apply list_elem_of_fmap in Hx as (input & -> & _).
    apply location_of_bounds. }
  pose proof (members_byte_length_bound _ _ Hbound) as Hsum.
  assert (Hpos : Forall (λ m, 0 ≤ sm_byte_length m) (sd_members struc))
    by (eapply Forall_impl; [done|]; simpl; lia).
  split_and!; try done.
  - lia.
  - apply packed_contiguous; [done|done|nia|done].
  - rewrite Hend. rewrite end_from_exact; [lia|done|done|nia].
Qed.

End PerVertexLayout.


(** ** Deduplication of struct definitions *)


Section DedupProperties.

Variable host : Host.
Variable options_ : Options.
Variable ir_ : ParsedIR.
Variable compiler_ : CompilerMSL.

Lemma first_visits_spec types : ∀ known_structs,
  NoDup (first_visits types known_structs) ∧
  ∀ id, id ∈ first_visits types known_structs ↔
        id ∈ self <$> types ∧ id ∉ known_structs.
Proof.
  induction types as [|type rest IH]; intros known_structs; simpl.
  - split; [constructor|set_solver].
  - case_bool_decide as Hknown.
    + destruct (IH known_structs) as [Hnodup Hmem].
      split; [done|]. intros id. rewrite Hmem. set_solver.
    + destruct (IH ({[self type]} ∪ known_structs)) as [Hnodup Hmem].
      split.
      * apply NoDup_cons. split; [|done]. rewrite Hmem. set_solver.
      * intros id. rewrite elem_of_cons, Hmem.
        destruct (decide (id = self type)) as [->|]; set_solver.
Qed.

Lemma ReflectStructDefinitions_from_refines fuel types :
  ∀ known_structs struct_definitions w,
  ReflectStructDefinitions_from host ir_ compiler_ fuel types known_structs
    struct_definitions w =
  match reflect_each host ir_ compiler_ fuel (first_visits types known_structs) w with
  | Returned tagged w' =>
      Returned (struct_definitions ++ emit_tagged tagged) w'
  | OutOfFuel => OutOfFuel
  | Aborted => Aborted
  end.
Proof.
  induction types as [|type rest IH]; intros known_structs defs w; simpl.
  - by rewrite !ret_run, app_nil_r.
  - case_bool_decide as Hknown; [apply IH|].
    simpl. rewrite !bind_run.
    destruct (ReflectStructDefinition _ _ _ _ _ w) as [[struc|] w1| |];
      [| |done..].
    + rewrite IH. unfold mbind, Run_bind.
      destruct (reflect_each _ _ _ _ _ w1) as [tagged w2| |]; [|done..].
      unfold mret, Run_ret, emit_tagged. simpl. by rewrite <-app_assoc.
    + rewrite IH. unfold mbind, Run_bind.
      by destruct (reflect_each _ _ _ _ _ w1) as [tagged w2| |].
Qed.

Lemma ReflectStructDefinition_reflectable fuel id w r w' :
  ReflectStructDefinition host ir_ compiler_ fuel id w = Returned r w' →
  is_Some r ↔ reflectable compiler_ id = true.
Proof.
  unfold ReflectStructDefinition, reflectable. intros H.
  case_bool_decide as Hstruct.
  - rewrite ret_run in H. injection H as <- _.
    rewrite bool_decide_eq_false_2 by done. simpl.
    split; [by intros [? ?]|done].
  - rewrite bool_decide_eq_true_2 by done.
    destruct (string_contains _ _); simpl.
    + rewrite ret_run in H. injection H as <- _.
      split; [by intros [? ?]|done].
    + apply bind_Returned_inv in H as (members & w1 & _ & H).
      rewrite ret_run in H. injection H as <- _. split; eauto.
Qed.

Lemma reflect_each_spec fuel ids : ∀ w tagged w',
  reflect_each host ir_ compiler_ fuel ids w = Returned tagged w' →
  tagged.*1 = filter (λ id, reflectable compiler_ id = true) ids ∧
  Forall (λ entry, ∃ w1 w2,
            ReflectStructDefinition host ir_ compiler_ fuel entry.1 w1 =
              Returned (Some entry.2) w2) tagged.
Proof.
  induction ids as [|id rest IH]; intros w tagged w' H; simpl in H.
  - rewrite ret_run in H. injection H as <- _. by split.
  - apply bind_Returned_inv in H as (struc & w1 & Hstruc & H).
    apply bind_Returned_inv in H as (more & w2 & Hmore & H).
    rewrite ret_run in H. injection H as <- _.
    apply IH in Hmore as [Hids Hall].
    pose proof (ReflectStructDefinition_reflectable _ _ _ _ _ Hstruc)
      as Hreflectable.
    rewrite filter_cons.
    destruct struc as [struc|].
    + rewrite decide_True by (apply Hreflectable; eauto). simpl.
      split; [by f_equal|]. constructor; [|done]. simpl. eauto.
    + rewrite decide_False; [done|].
      intros [? ?]%Hreflectable. done.
Qed.

Lemma definitions_for_count id tagged :
  NoDup tagged.*1 →
  definitions_for id tagged = if decide (id ∈ tagged.*1) then 1%nat else 0%nat.
Proof.
  unfold definitions_for.
  induction tagged as [|[id' struc] rest IH]; intros Hnodup.
  - case_decide as Hin; [by apply elem_of_nil in Hin|done].
  - rewrite fmap_cons in Hnodup. cbn [fst] in Hnodup.
    apply NoDup_cons in Hnodup as [Hnotin Hnodup].
    rewrite filter_cons, fmap_cons. cbn [fst]. specialize (IH Hnodup).
    destruct (decide (id' = id)) as [->|Hne].
    + cbn [length]. rewrite IH.
      rewrite (decide_False (P := id ∈ rest.*1)) by done.
      by rewrite decide_True by (apply elem_of_cons; auto).
    + rewrite IH. destruct (decide (id ∈ rest.*1)) as [Hin|Hnot].
      * by rewrite decide_True by (apply elem_of_cons; auto).
      * rewrite decide_False; [done|].
        intros [->|Hin]%elem_of_cons; done.
Qed.

(** Claim C6, as amended: in every assembled document the struct definitions
    after the per-vertex structure are reflections of struct identifiers of
    the type sequence, in which an identifier has exactly one definition
    when the sequence yields it (any number of times) and
    [ReflectStructDefinition] accepts it (a struct whose name does not
    contain the reserved marker), and none otherwise. *)
Theorem struct_definitions_deduplicated fuel w root w' :
  GenerateTemplateArguments host options_ ir_ compiler_ fuel w =
    Returned (Some root) w' →
  ∃ front tagged,
    get_entry_points_and_stages compiler_ = [front] ∧
    json_get "struct_definitions" root =
      Some (JArray (per_vertex_definitions host compiler_ front ++
                    emit_tagged tagged)) ∧
    Forall (λ entry, ∃ w1 w2,
              ReflectStructDefinition host ir_ compiler_ fuel entry.1 w1 =
                Returned (Some entry.2) w2) tagged ∧
    ∀ id,
      definitions_for id tagged =
      if decide (id ∈ self <$> typed_ids ir_ ∧ reflectable compiler_ id = true)
      then 1%nat else 0%nat.
Proof.
  intros Hrun.
  destruct (get_entry_points_and_stages compiler_) as [|front [|]] eqn:Hentry;
    try (unfold GenerateTemplateArguments in Hrun; rewrite Hentry in Hrun;
         by inversion Hrun).
  destruct (GenerateTemplateArguments_run host options_ ir_ compiler_ fuel w
              front Hentry) as (ubs & ins & combined & images & samplers &
                                outs & _ & _ & _ & _ & _ & _ & E).
  rewrite E in Hrun. clear E.
  rewrite ReflectStructDefinitions_from_refines in Hrun.
  destruct (reflect_each _ _ _ _ _ _) as [tagged w1| |] eqn:Heach; [|done..].
  injection Hrun as <- _.
  apply reflect_each_spec in Heach as [Hids Hall].
  destruct (first_visits_spec (typed_ids ir_) ∅) as [Hnodup Hmem].
  exists front, tagged. split_and!; [done| |done|].
  - unfold assembled, json_get. by rewrite lookup_insert_eq.
  - intros id. rewrite definitions_for_count.
    2:{ rewrite Hids. by apply NoDup_filter. }
    rewrite Hids.
    destruct (decide (id ∈ self <$> typed_ids ir_ ∧ reflectable compiler_ id = true))
      as [[Hin Hr]|Hno].
    + rewrite decide_True; [done|].
      apply list_elem_of_filter. split; [done|]. apply Hmem. set_solver.
    + rewrite decide_False; [done|].
      intros [Hr Hin%Hmem]%list_elem_of_filter. apply Hno. tauto.
Qed.

End DedupProperties.


(** ** The claims on the sample modules *)

(** The scenario of the specification: inputs at locations 0 and 1. *)
Example per_vertex_scenario :
  ReflectPerVertexStructDefinition impeller_host vertex_compiler
    [position_input; color_input] =
  Some {| sd_name := "PerVertexData"; sd_byte_length := 24;
          sd_members :=
            [{| sm_type := "Point"; sm_name := "position"; sm_offset := 0;
                sm_byte_length := 8 |};
             {| sm_type := "Vector4"; sm_name := "color"; sm_offset := 8;
                sm_byte_length := 16 |}] |}.
Proof. vm_compute. reflexivity. Qed.

Lemma ReflectPerVertexStructDefinition_iff_witness :
  [position_input; color_input] ≠ [] ∧
  NoDup (locations_of vertex_compiler [position_input; color_input]) ∧
  ∀ x, x ∈ locations_of vertex_compiler [position_input; color_input] ↔
       0 ≤ x < 2.
Proof.
  apply (proj1 (ReflectPerVertexStructDefinition_iff impeller_host
                  vertex_compiler [position_input; color_input])).
  vm_compute. eauto.
Defined.

Lemma sampled_images_order_witness :
  ∃ root w',
    GenerateTemplateArguments impeller_host sample_options (sample_ir [10])
      textured_compiler 1 initial_world = Returned (Some root) w' ∧
    ∃ combined images samplers,
      Forall2 (reflects textured_compiler)
        (sampled_images (get_shader_resources textured_compiler)) combined ∧
      Forall2 (reflects textured_compiler)
        (separate_images (get_shader_resources textured_compiler)) images ∧
      Forall2 (reflects textured_compiler)
        (separate_samplers (get_shader_resources textured_compiler)) samplers ∧
      json_get "sampled_images" root =
        Some (JArray (combined ++ images ++ samplers)).
Proof.
  eexists _, _. split; [vm_compute; reflexivity|].
  eapply (sampled_images_order impeller_host sample_options (sample_ir [10])
            textured_compiler 1 initial_world).
  vm_compute. reflexivity.
Defined.

Lemma entrypoint_count_is_fatal_witness :
  length (get_entry_points_and_stages empty_compiler) ≠ 1%nat ∧
  GenerateTemplateArguments impeller_host sample_options (sample_ir [10])
    empty_compiler 1 initial_world = Returned None initial_world ∧
  ∃ r,
    Reflector_ctor impeller_host sample_codegen sample_options
      (Some (sample_ir [10])) (Some empty_compiler) 1 initial_world =
      Returned r initial_world ∧
    GetReflectionHeader r = None ∧
    GetReflectionCC r = None ∧
    IsValid r = false.
Proof.
  split; [by vm_compute|].
  apply (entrypoint_count_is_fatal impeller_host sample_options
           (sample_ir [10]) empty_compiler sample_codegen
           (Some (sample_ir [10])) 1 initial_world).
  by vm_compute.
Defined.

Lemma GetMemberNameAtIndexIfExists_terminates_witness :
  alias_chain plain_compiler (sample_types 40) 2 (sample_types 42) ∧
  (∀ fuel, (fuel ≤ 2)%nat →
     GetMemberNameAtIndexIfExists (sample_ir []) plain_compiler fuel
       (sample_types 40) 0 = None) ∧
  ∃ r,
    (∀ fuel, (2 < fuel)%nat →
       GetMemberNameAtIndexIfExists (sample_ir []) plain_compiler fuel
         (sample_types 40) 0 = Some r) ∧
    (∀ a, r = Some a ↔
          declared_alias (sample_ir []) (sample_types 42) 0 a).
Proof.
  assert (Hchain :
    alias_chain plain_compiler (sample_types 40) 2 (sample_types 42)).
  { apply alias_chain_step; [by vm_compute|].
    apply (alias_chain_step plain_compiler (sample_types 41) 0
             (sample_types 42)); [by vm_compute|].
    apply alias_chain_end. reflexivity. }
  split; [exact Hchain|].
  exact (GetMemberNameAtIndexIfExists_terminates (sample_ir [])
           plain_compiler (sample_types 40) 2 (sample_types 42) 0 Hchain).
Defined.

Lemma scalar_member_rule_witness :
  ∃ name pad_name total' w',
    ReadStructMember impeller_host (sample_ir []) plain_compiler 1
      (sample_types 13) 0 (sample_types 4) [] 0 initial_world =
    Returned
      ([{| sm_type := "bool"; sm_name := name; sm_offset := 0;
           sm_byte_length := 1 |};
        {| sm_type := "Padding<3>"; sm_name := pad_name; sm_offset := 1;
           sm_byte_length := 3 |}],
       total') w'.
Proof.
  refine (proj1 (scalar_member_rule impeller_host (sample_ir [])
            plain_compiler 1 (sample_types 13) 0 (sample_types 13) 0
            (sample_types 4)
            {| kt_name := "bool"; kt_byte_size := sizeof_bool impeller_host |}
            [] 0 initial_world _ _ _ _ _ _)).
  - apply alias_chain_end. reflexivity.
  - lia.
  - reflexivity.
  - reflexivity.
  - reflexivity.
  - by vm_compute.
Defined.

Lemma struct_definitions_deduplicated_witness :
  ∃ root w',
    GenerateTemplateArguments impeller_host sample_options
      (sample_ir [13; 14; 13; 2; 42; 14; 13]) plain_compiler 1
      initial_world = Returned (Some root) w' ∧
    ∃ front tagged,
      get_entry_points_and_stages plain_compiler = [front] ∧
      json_get "struct_definitions" root =
        Some (JArray (per_vertex_definitions impeller_host plain_compiler
                        front ++ emit_tagged tagged)) ∧
      Forall (λ entry, ∃ w1 w2,
                ReflectStructDefinition impeller_host
                  (sample_ir [13; 14; 13; 2; 42; 14; 13]) plain_compiler 1
                  entry.1 w1 = Returned (Some entry.2) w2) tagged ∧
      ∀ id,
        definitions_for id tagged =
        if decide (id ∈ self <$> typed_ids
                                   (sample_ir [13; 14; 13; 2; 42; 14; 13]) ∧
                   reflectable plain_compiler id = true)
        then 1%nat else 0%nat.
Proof.
  eexists _, _. split; [vm_compute; reflexivity|].
  eapply (struct_definitions_deduplicated impeller_host sample_options
            (sample_ir [13; 14; 13; 2; 42; 14; 13]) plain_compiler 1
            initial_world).
  vm_compute. reflexivity.
Defined.

(** The deduplication claim as stated fails on a module whose type sequence
    yields twice a struct with a reserved name: the document has no struct
    definition at all. *)
Lemma each_struct_defined_once_as_stated_fails :
  ¬ each_struct_defined_once_as_stated impeller_host sample_options
      (sample_ir [14; 14]) plain_compiler 1 initial_world.
Proof.
  intros H.
  destruct (GenerateTemplateArguments impeller_host sample_options
              (sample_ir [14; 14]) plain_compiler 1 initial_world)
    as [[root|] w'| |] eqn:E; try (vm_compute in E; discriminate E).
  destruct (H root w' E) as (front & tagged & Hfront & Hjson & Hcount).
  injection Hfront as <-.
  vm_compute in E. injection E as <- _.
  vm_compute in Hjson. injection Hjson as Hjson.
  destruct tagged; [|discriminate Hjson].
  specialize (Hcount (sample_types 14)).
  assert (definitions_for (self (sample_types 14)) [] = 1%nat) as Hone.
  { apply Hcount; [|reflexivity]. simpl. by left. }
  vm_compute in Hone. discriminate Hone.
Qed.

(** *** The narrow boolean *)

(** Claim C4: the scalar rule on a boolean as SPIRV-Cross resolves it (one
    column, one component, 1 bit wide), the only member of struct 10.  The
    declared width does not exceed 8 times the byte of [bool], so the rule
    as worded asks for the [bool] member alone; [ReadStructMembers] emits a
    padding member right after it, whose length is no excess but [0 - 1] in
    [size_t]. *)
Theorem scalar_padding_without_excess :
  member_types (get_type plain_compiler 10) = [1] ∧
  ReadKnownScalarType impeller_host (basetype (get_type plain_compiler 1)) =
    Some {| kt_name := "bool"; kt_byte_size := 1 |} ∧
  (columns (get_type plain_compiler 1) : Z) = 1 ∧
  (vecsize (get_type plain_compiler 1) : Z) = 1 ∧
  (width (get_type plain_compiler 1) : Z) ≤ 8 * 1 ∧
  (∃ w',
     ReadStructMembers impeller_host (sample_ir []) plain_compiler 1 10
       initial_world =
     Returned
       [{| sm_type := "bool"; sm_name := "unnamed_0"; sm_offset := 0;
           sm_byte_length := 1 |};
        {| sm_type := "Padding<18446744073709551615>";
           sm_name := "unnamed_1_pad"; sm_offset := 1;
           sm_byte_length := 2 ^ 64 - 1 |}] w') ∧
  ¬ scalar_rule_as_stated impeller_host (sample_ir []) plain_compiler 1
      (get_type plain_compiler 10) 0 (get_type plain_compiler 1) [] 0
      initial_world.
Proof.
  split_and!; try reflexivity.
  - by vm_compute.
  - eexists. vm_compute. reflexivity.
  - intros H.
    destruct (H {| kt_name := "bool";
                   kt_byte_size := sizeof_bool impeller_host |}
                eq_refl eq_refl eq_refl)
      as (name & pad_name & total' & w' & E).
    vm_compute in E. discriminate E.
Qed.

(** Claim C5: a struct whose only member is a boolean as SPIRV-Cross resolves it
    (1 bit wide): the scalar rule subtracts the size of [bool] from 0 in
    [size_t]; the two members emitted are 2^64 bytes long together, and the
    struct is declared 0 bytes long. *)
Theorem scalar_lengths_exceed_declared :
  ∃ struc w',
    ReflectStructDefinition impeller_host (sample_ir []) plain_compiler 1 10
      initial_world = Returned (Some struc) w' ∧
    sd_members struc =
      [{| sm_type := "bool"; sm_name := "unnamed_0"; sm_offset := 0;
          sm_byte_length := 1 |};
       {| sm_type := "Padding<18446744073709551615>";
          sm_name := "unnamed_1_pad"; sm_offset := 1;
          sm_byte_length := 18446744073709551615 |}] ∧
    sd_byte_length struc = 0 ∧
    members_byte_length (sd_members struc) = 2 ^ 64.
Proof.
  eexists _, _. split; [vm_compute; reflexivity|].
  by vm_compute.
Qed.

(** Claim C1: the same defect in a struct with a [vec4] and a narrow boolean:
    declared 16 bytes long, with members that are 16 + 2^64 bytes long
    together. *)
Theorem struct_byte_length_disagrees :
  ∃ struc w',
    ReflectStructDefinition impeller_host (sample_ir []) plain_compiler 1 12
      initial_world = Returned (Some struc) w' ∧
    sd_members struc =
      [{| sm_type := "Vector4"; sm_name := "unnamed_0"; sm_offset := 0;
          sm_byte_length := 16 |};
       {| sm_type := "bool"; sm_name := "unnamed_1"; sm_offset := 16;
          sm_byte_length := 1 |};
       {| sm_type := "Padding<18446744073709551615>";
          sm_name := "unnamed_2_pad"; sm_offset := 17;
          sm_byte_length := 18446744073709551615 |}] ∧
    sd_byte_length struc = 16 ∧
    members_byte_length (sd_members struc) = 16 + 2 ^ 64.
Proof.
  eexists _, _. split; [vm_compute; reflexivity|].
  by vm_compute.
Qed.

(** Claim C2: the same defect breaks the offsets: after the narrow boolean and
    its padding the float starts at offset 0 again, on top of the boolean,
    while the padding ends at 2^64. *)
Theorem member_offsets_overlap :
  ∃ struc w',
    ReflectStructDefinition impeller_host (sample_ir []) plain_compiler 1 11
      initial_world = Returned (Some struc) w' ∧
    sd_members struc =
      [{| sm_type := "bool"; sm_name := "unnamed_0"; sm_offset := 0;
          sm_byte_length := 1 |};
       {| sm_type := "Padding<18446744073709551615>";
          sm_name := "unnamed_1_pad"; sm_offset := 1;
          sm_byte_length := 18446744073709551615 |};
       {| sm_type := "Scalar"; sm_name := "unnamed_2"; sm_offset := 0;
          sm_byte_length := 4 |}] ∧
    ¬ contiguous_from 0 (sd_members struc).
Proof.
  eexists _, _. split; [vm_compute; reflexivity|].
  split; [reflexivity|].
  simpl. intros (_ & _ & Hoff & _). discriminate Hoff.
Qed.

(** * Further properties *)

(** ** Strings and tags *)

Lemma string_app_length (s t : string) :
  String.length (s +:+ t) = (String.length s + String.length t)%nat.
Proof. induction s; simpl; [done|]. by f_equal. Qed.

Lemma string_app_inj_r (s1 s2 t : string) : s1 +:+ t = s2 +:+ t → s1 = s2.
Proof.
  revert s2. induction s1 as [|a s1 IH]; intros [|b s2] H; simpl in *.
  - done.
  - apply (f_equal String.length) in H.
    rewrite !string_app_length in H. simpl in H. lia.
  - apply (f_equal String.length) in H.
    rewrite !string_app_length in H. simpl in H. lia.
  - injection H as -> H. f_equal. by apply IH.
Qed.

Lemma string_app_inj_l (s t1 t2 : string) : s +:+ t1 = s +:+ t2 → t1 = t2.
Proof.
  induction s as [|a s IH]; intros H; [exact H|].
  change (String a (s +:+ t1) = String a (s +:+ t2)) in H.
  injection H as H. by apply IH.
Qed.

(** Extra X1: two base types with the same tag are the same base type,
    unless the tag is the one for unknown types. *)
Theorem BaseTypeToString_inj (a b : BaseType) :
  BaseTypeToString a = BaseTypeToString b →
  a = b ∨ BaseTypeToString a = "ShaderType::kUnknown".
Proof. destruct a, b; simpl; intros H; try discriminate H; auto. Qed.

Lemma BaseTypeToString_inj_witness :
  BaseTypeToString Float = BaseTypeToString Float ∧
  (Float = Float ∨ BaseTypeToString Float = "ShaderType::kUnknown").
Proof.
  split; [reflexivity|].
  apply (BaseTypeToString_inj Float Float). reflexivity.
Defined.

(** Extra X2: the stage callback applied to the stage name written in the
    document gives the vertex tag exactly for vertex shaders, the fragment
    tag exactly for fragment shaders, and the unknown tag for every other
    execution model. *)
Theorem stage_tag_of_model (model : ExecutionModel) :
  StringToShaderStage (ExecutionModelToString model) =
  match model with
  | ExecutionModelVertex => "ShaderStage::kVertex"
  | ExecutionModelFragment => "ShaderStage::kFragment"
  | _ => "ShaderStage::kUnknown"
  end.
Proof. by destruct model. Qed.

(** Extra X3: padding type names determine the size they were made
    from. *)
Theorem TypeNameWithPaddingOfSize_inj (size1 size2 : Z) :
  TypeNameWithPaddingOfSize size1 = TypeNameWithPaddingOfSize size2 →
  size1 = size2.
Proof.
  unfold TypeNameWithPaddingOfSize. intros H.
  apply string_app_inj_l, string_app_inj_r in H. by apply (inj pretty).
Qed.

Lemma TypeNameWithPaddingOfSize_inj_witness :
  TypeNameWithPaddingOfSize 3 = TypeNameWithPaddingOfSize (1 + 2) ∧
  3 = 1 + 2.
Proof.
  split; [reflexivity|].
  apply (TypeNameWithPaddingOfSize_inj 3 (1 + 2)). reflexivity.
Defined.

Lemma prefix_spec (needle hay : string) :
  String.prefix needle hay = true ↔ ∃ post, hay = needle +:+ post.
Proof.
  revert hay. induction needle as [|a needle IH]; intros hay.
  - split; [|by destruct hay]. intros _. exists hay. reflexivity.
  - destruct hay as [|b hay]; simpl.
    + split; [done|]. by intros [post H].
    + destruct (ascii_dec a b) as [->|Hne].
      * rewrite IH. split.
        -- intros [post ->]. exists post. reflexivity.
        -- intros [post H].
           change (String b hay = String b (needle +:+ post)) in H.
           injection H as ->. by exists post.
      * split; [done|]. intros [post H].
        change (String b hay = String a (needle +:+ post)) in H.
        by injection H as -> _.
Qed.

Lemma string_contains_spec (needle hay : string) :
  string_contains needle hay = true ↔
  ∃ pre post, hay = pre +:+ needle +:+ post.
Proof.
  induction hay as [|c hay IH]; cbn [string_contains].
  - rewrite orb_false_r, prefix_spec. split.
    + intros [post H]. exists "", post. exact H.
    + intros ([|c pre] & post & H); [exists post; exact H|].
      by change ("" = String c (pre +:+ needle +:+ post)) in H.
  - rewrite orb_true_iff, prefix_spec, IH. split.
    + intros [[post H]|(pre & post & ->)].
      * exists "", post. exact H.
      * exists (String c pre), post. reflexivity.
    + intros ([|c' pre] & post & H).
      * left. exists post. exact H.
      * change (String c hay = String c' (pre +:+ needle +:+ post)) in H.
        injection H as -> ->. right. by exists pre, post.
Qed.

(** Extra X4: the search [ReflectStructDefinition] applies to struct names
    finds the needle exactly when it occurs somewhere in the name: at the
    start, in the middle or at the end. *)
Theorem string_contains_iff_substring (needle hay : string) :
  string_contains needle hay = true ↔
  ∃ pre post, hay = pre +:+ needle +:+ post.
Proof. apply string_contains_spec. Qed.

Section StructGuards.

Variable host : Host.
Variable ir_ : ParsedIR.
Variable compiler_ : CompilerMSL.

Lemma ReflectStructDefinition_rejects fuel id w :
  reflectable compiler_ id = false →
  ReflectStructDefinition host ir_ compiler_ fuel id w = Returned None w.
Proof.
  unfold reflectable, ReflectStructDefinition. intros H.
  destruct (decide (basetype (get_type compiler_ id) = Struct)) as [Hs|Hs].
  - rewrite bool_decide_eq_true_2 in H by done. simpl in H.
    apply negb_false_iff in H.
    rewrite bool_decide_eq_false_2 by (by intros []). by rewrite H.
  - by rewrite bool_decide_eq_true_2.
Qed.

(** Extra X5: [ReflectStructDefinition] returns no definition, and leaves
    the world as it found it, exactly for the identifiers of types that are
    not structs and of structs whose name contains the reserved marker. *)
Theorem ReflectStructDefinition_none_iff fuel id w :
  ReflectStructDefinition host ir_ compiler_ fuel id w = Returned None w ↔
  basetype (get_type compiler_ id) ≠ Struct ∨
  ∃ pre post, get_name compiler_ id = pre +:+ reserved_marker +:+ post.
Proof.
  rewrite <-string_contains_spec. unfold reserved_marker. split.
  - intros H.
    pose proof (ReflectStructDefinition_reflectable host ir_ compiler_
                  fuel id w None w H) as Hr.
    destruct (decide (basetype (get_type compiler_ id) = Struct))
      as [Hstruct|]; [|by left].
    right. destruct (string_contains _ _) eqn:Hc; [done|].
    assert (is_Some (None : option StructDefinition)) as [? ?]; [|done].
    apply Hr. unfold reflectable.
    by rewrite bool_decide_eq_true_2, Hc.
  - intros H. apply ReflectStructDefinition_rejects. unfold reflectable.
    destruct H as [H|H].
    + by rewrite bool_decide_eq_false_2.
    + rewrite H. apply andb_false_r.
Qed.

End StructGuards.

(** ** Resources *)

Section ResourceObjects.

Variable compiler_ : CompilerMSL.

(** Extra X6: the value reflected for a resource is an object with exactly
    the ten keys of the source, none of which overwrites another: the name,
    the four decorations, the four automatic bindings, and under "type" the
    descriptor of its type with the tag, width, vector size and column
    count of that type. *)
Theorem ReflectResource_object resource w :
  ∃ o t,
    ReflectResource compiler_ resource w =
      Returned (Some (JObject o)) (after_reflecting [resource] w) ∧
    dom o = resource_keys ∧
    o !! "name" = Some (JString (res_name resource)) ∧
    o !! "descriptor_set" = Some (JNumber
      (get_decoration compiler_ (res_id resource) DecorationDescriptorSet)) ∧
    o !! "binding" = Some (JNumber
      (get_decoration compiler_ (res_id resource) DecorationBinding)) ∧
    o !! "location" = Some (JNumber
      (get_decoration compiler_ (res_id resource) DecorationLocation)) ∧
    o !! "index" = Some (JNumber
      (get_decoration compiler_ (res_id resource) DecorationIndex)) ∧
    o !! "msl_res_0" = Some (JNumber
      (get_automatic_msl_resource_binding compiler_ (res_id resource))) ∧
    o !! "msl_res_1" = Some (JNumber
      (get_automatic_msl_resource_binding_secondary compiler_
         (res_id resource))) ∧
    o !! "msl_res_2" = Some (JNumber
      (get_automatic_msl_resource_binding_tertiary compiler_
         (res_id resource))) ∧
    o !! "msl_res_3" = Some (JNumber
      (get_automatic_msl_resource_binding_quaternary compiler_
         (res_id resource))) ∧
    o !! "type" = Some (JObject t) ∧
    dom t = {[ "type_name"; "bit_width"; "vec_size"; "columns" ]} ∧
    let type := get_type compiler_ (type_id resource) in
    t !! "type_name" = Some (JString (BaseTypeToString (basetype type))) ∧
    t !! "bit_width" = Some (JNumber (width type)) ∧
    t !! "vec_size" = Some (JNumber (vecsize type)) ∧
    t !! "columns" = Some (JNumber (columns type)).
Proof.
  unfold ReflectResource, ReflectType. eexists _, _.
  split; [destruct w; reflexivity|].
  split; [rewrite !dom_insert_L, dom_empty_L; unfold resource_keys;
          set_solver|].
  repeat (split; [by rewrite ?lookup_insert_ne by done;
                     rewrite lookup_insert_eq|]).
  split; [rewrite !dom_insert_L, dom_empty_L; set_solver|].
  cbv zeta.
  repeat split; by rewrite ?lookup_insert_ne by done; rewrite lookup_insert_eq.
Qed.

End ResourceObjects.

(** ** Member names *)

Lemma digits_only_pretty_N_go (x : N) : ∀ s,
  digits_only s = true → digits_only (pretty_N_go x s) = true.
Proof.
  induction (N.lt_wf_0 x) as [x _ IH]; intros s Hs.
  assert (x = 0 ∨ 0 < x)%N as [->|Hpos] by lia.
  - by rewrite pretty_N_go_0.
  - rewrite pretty_N_go_step by done. apply IH.
    { by apply N.div_lt. }
    simpl. rewrite Hs, andb_true_r.
    unfold pretty_N_char. by repeat case_match.
Qed.

Lemma digits_only_pretty (z : Z) : 0 ≤ z → digits_only (pretty z) = true.
Proof.
  intros Hz. destruct z as [|p|p]; [done| |lia].
  unfold pretty, pretty_Z, pretty, pretty_positive, pretty, pretty_N.
  rewrite decide_False by done. by apply digits_only_pretty_N_go.
Qed.

(** A run of digits followed by one of the two suffixes of the source can
    be read back in one way only. *)
Lemma digits_suffix_inj (d1 d2 s1 s2 : string) :
  digits_only d1 = true → digits_only d2 = true →
  s1 ∈ ["" ; "_pad"] → s2 ∈ [""; "_pad"] →
  d1 +:+ s1 = d2 +:+ s2 → d1 = d2 ∧ s1 = s2.
Proof.
  revert d2. induction d1 as [|c1 d1 IH]; intros [|c2 d2] Hd1 Hd2 Hs1 Hs2 H.
  - done.
  - change (s1 = String c2 (d2 +:+ s2)) in H. simpl in Hd2.
    apply andb_true_iff in Hd2 as [Hc2 _].
    apply elem_of_cons in Hs1 as [->|Hs1]; [done|].
    apply list_elem_of_singleton in Hs1 as ->.
    injection H as <- _. done.
  - change (String c1 (d1 +:+ s1) = s2) in H. simpl in Hd1.
    apply andb_true_iff in Hd1 as [Hc1 _].
    apply elem_of_cons in Hs2 as [->|Hs2]; [done|].
    apply list_elem_of_singleton in Hs2 as ->.
    injection H as -> _. done.
  - change (String c1 (d1 +:+ s1) = String c2 (d2 +:+ s2)) in H.
    injection H as -> H. simpl in Hd1, Hd2.
    apply andb_true_iff in Hd1 as [_ Hd1].
    apply andb_true_iff in Hd2 as [_ Hd2].
    destruct (IH d2 Hd1 Hd2 Hs1 Hs2 H) as [-> ->]. done.
Qed.

Section MemberNames.

Variable ir_ : ParsedIR.
Variable compiler_ : CompilerMSL.

(** What a call that finds no declared alias returns. *)
Lemma GetMemberNameAtIndex_anonymous fuel t index suffix w :
  GetMemberNameAtIndexIfExists ir_ compiler_ fuel t index = Some None →
  GetMemberNameAtIndex ir_ compiler_ fuel t index suffix w =
    Returned ("unnamed_" +:+ pretty (sUnnamedMembersID w) +:+ suffix)
      {| sUnnamedMembersID := wrap_size (sUnnamedMembersID w + 1);
         resources_seen := resources_seen w |}.
Proof. unfold GetMemberNameAtIndex. by intros ->. Qed.

(** Extra X7: on a type whose alias chain ends, with a budget above the
    length of the chain, [GetMemberNameAtIndex] returns the alias declared
    for the underlying type at that index and leaves the counter alone; when
    none is declared it returns "unnamed_", the counter in decimal and the
    suffix, and advances the counter by one. *)
Theorem GetMemberNameAtIndex_spec fuel t n u index suffix w :
  alias_chain compiler_ t n u → (n < fuel)%nat →
  (∀ a, declared_alias ir_ u index a →
     GetMemberNameAtIndex ir_ compiler_ fuel t index suffix w =
       Returned a w) ∧
  ((∀ a, ¬ declared_alias ir_ u index a) →
     GetMemberNameAtIndex ir_ compiler_ fuel t index suffix w =
       Returned ("unnamed_" +:+ pretty (sUnnamedMembersID w) +:+ suffix)
         {| sUnnamedMembersID := wrap_size (sUnnamedMembersID w + 1);
            resources_seen := resources_seen w |}).
Proof.
  intros Hchain Hfuel.
  destruct (GetMemberNameAtIndexIfExists_unaliased ir_ compiler_ u index)
    as (r & Hr & Hdecl); [by eapply alias_chain_underlying|].
  pose proof (GetMemberNameAtIndexIfExists_forwards ir_ compiler_ t n u
                index fuel Hchain Hfuel) as Hfwd.
  rewrite Hr in Hfwd. split.
  - intros a Ha. apply Hdecl in Ha as ->.
    unfold GetMemberNameAtIndex. by rewrite Hfwd.
  - intros Hnone. destruct r as [a|].
    + destruct (Hnone a). by apply Hdecl.
    + by apply GetMemberNameAtIndex_anonymous.
Qed.

(** Extra X8: an anonymous name tells the counter it was drawn at: two
    calls that find no declared alias and return the same name, each with
    one of the two suffixes of the source, were made at the same counter
    value and with the same suffix. *)
Theorem anonymous_name_determines_counter
    fuel1 t1 index1 suffix1 w1 w1' fuel2 t2 index2 suffix2 w2 w2' name :
  GetMemberNameAtIndexIfExists ir_ compiler_ fuel1 t1 index1 = Some None →
  GetMemberNameAtIndexIfExists ir_ compiler_ fuel2 t2 index2 = Some None →
  suffix1 ∈ [""; "_pad"] → suffix2 ∈ [""; "_pad"] →
  0 ≤ sUnnamedMembersID w1 → 0 ≤ sUnnamedMembersID w2 →
  GetMemberNameAtIndex ir_ compiler_ fuel1 t1 index1 suffix1 w1 =
    Returned name w1' →
  GetMemberNameAtIndex ir_ compiler_ fuel2 t2 index2 suffix2 w2 =
    Returned name w2' →
  sUnnamedMembersID w1 = sUnnamedMembersID w2 ∧ suffix1 = suffix2.
Proof.
  intros H1 H2 Hs1 Hs2 Hc1 Hc2 E1 E2.
  rewrite GetMemberNameAtIndex_anonymous in E1 by done.
  rewrite GetMemberNameAtIndex_anonymous in E2 by done.
  injection E1 as E1 _. injection E2 as E2 _. rewrite <-E2 in E1.
  apply string_app_inj_l in E1.
  apply digits_suffix_inj in E1 as [E1 ->];
    [|by apply digits_only_pretty..|done|done].
  split; [|done]. by apply (inj pretty).
Qed.

End MemberNames.

(** ** Struct members *)

Lemma anonymous_from_app c ms1 ms2 :
  anonymous_from c (ms1 ++ ms2) ↔
  anonymous_from c ms1 ∧ anonymous_from (advance (length ms1) c) ms2.
Proof.
  revert c. induction ms1 as [|m ms1 IH]; intros c.
  - simpl. tauto.
  - cbn [anonymous_from app length]. rewrite IH.
    replace (advance (S (length ms1)) c)
      with (advance (length ms1) (wrap_size (c + 1))).
    + tauto.
    + unfold advance. by rewrite Nat.iter_succ_r.
Qed.

Lemma advance_add k1 k2 c : advance (k1 + k2) c = advance k2 (advance k1 c).
Proof. unfold advance. by rewrite Nat.add_comm, Nat.iter_add. Qed.

Lemma advance_small (k : nat) c :
  0 ≤ c → c + Z.of_nat k < 2 ^ 64 → advance k c = c + Z.of_nat k.
Proof.
  revert c. induction k as [|k IH]; intros c Hc Hk.
  - simpl. lia.
  - unfold advance in *. rewrite Nat.iter_succ_r.
    rewrite wrap_size_small by lia. rewrite IH by lia. lia.
Qed.

Lemma anonymous_from_fresh c0 members : ∀ c suffix,
  0 ≤ c0 < c → c + Z.of_nat (length members) ≤ 2 ^ 64 →
  suffix ∈ [""; "_pad"] →
  anonymous_from c members →
  "unnamed_" +:+ pretty c0 +:+ suffix ∉ sm_name <$> members.
Proof.
  induction members as [|m rest IH]; intros c suffix Hc Hfit Hsuffix Hanon.
  - apply not_elem_of_nil.
  - destruct Hanon as [(suffix' & Hsuffix' & Hname) Hrest].
    cbn [length] in Hfit. rewrite fmap_cons. apply not_elem_of_cons. split.
    + rewrite Hname. intros H. apply string_app_inj_l in H.
      apply digits_suffix_inj in H as [H _];
        [|apply digits_only_pretty; lia..|done|done].
      apply (inj pretty) in H. lia.
    + destruct rest as [|m' rest']; [apply not_elem_of_nil|].
      cbn [length] in *.
      assert (Hw : wrap_size (c + 1) = c + 1) by (apply wrap_size_small; lia).
      rewrite Hw in Hrest.
      apply (IH (c + 1)); [lia|cbn [length]; lia|done|done].
Qed.

Lemma anonymous_from_NoDup members : ∀ c,
  0 ≤ c → c + Z.of_nat (length members) ≤ 2 ^ 64 →
  anonymous_from c members → NoDup (sm_name <$> members).
Proof.
  induction members as [|m rest IH]; intros c Hc Hfit Hanon.
  - constructor.
  - destruct Hanon as [(suffix & Hsuffix & Hname) Hrest].
    cbn [length] in Hfit. rewrite fmap_cons. apply NoDup_cons. split.
    + rewrite Hname.
      destruct rest as [|m' rest']; [apply not_elem_of_nil|].
      cbn [length] in *.
      assert (Hw : wrap_size (c + 1) = c + 1) by (apply wrap_size_small; lia).
      rewrite Hw in Hrest.
      apply (anonymous_from_fresh c _ (c + 1));
        [lia|cbn [length]; lia|done|done].
    + destruct rest as [|m' rest']; [constructor|].
      cbn [length] in *.
      assert (Hw : wrap_size (c + 1) = c + 1) by (apply wrap_size_small; lia).
      rewrite Hw in Hrest.
      apply (IH (c + 1)); [lia|cbn [length]; lia|done].
Qed.

Section StructMembers.

Variable host : Host.
Variable ir_ : ParsedIR.
Variable compiler_ : CompilerMSL.

Lemma emitted_count member total new :
  emitted host member total new → (1 ≤ length new ≤ 2)%nat.
Proof. destruct 1; simpl; lia. Qed.

Lemma laid_out_count types total members :
  laid_out host types total members →
  (length types ≤ length members ≤ 2 * length types)%nat.
Proof.
  induction 1 as [|member rest total new more Hnew _ IH]; simpl; [lia|].
  apply emitted_count in Hnew. rewrite length_app. lia.
Qed.

(** Extra X9: a reflected struct has at least one member for each member
    of the struct type and at most two (a scalar and its padding). *)
Theorem ReflectStructDefinition_member_count fuel id w struc w' :
  ReflectStructDefinition host ir_ compiler_ fuel id w =
    Returned (Some struc) w' →
  let n := length (member_types (get_type compiler_ id)) in
  (n ≤ length (sd_members struc) ≤ 2 * n)%nat.
Proof.
  intros (_ & _ & _ & Hlaid)%ReflectStructDefinition_laid_out n.
  apply laid_out_count in Hlaid. by rewrite length_fmap in Hlaid.
Qed.

Ltac split_branches H :=
  repeat match type of H with
  | context [match ReadKnownScalarType ?h ?t with _ => _ end] =>
      destruct (ReadKnownScalarType h t) eqn:?
  | context [if ?c then _ else _] => destruct c eqn:?
  end.

(** One iteration on a struct type without declared member names. *)
Lemma ReadStructMember_anonymous fuel struct_type i member result total w
    result' total' w' :
  (∀ index,
     GetMemberNameAtIndexIfExists ir_ compiler_ fuel struct_type index =
       Some None) →
  ReadStructMember host ir_ compiler_ fuel struct_type i member result total w
    = Returned (result', total') w' →
  ∃ new,
    result' = result ++ new ∧
    anonymous_from (sUnnamedMembersID w) new ∧
    sUnnamedMembersID w' = advance (length new) (sUnnamedMembersID w) ∧
    resources_seen w' = resources_seen w.
Proof.
  intros Hanon. unfold ReadStructMember. cbv zeta.
  intros H.
  assert (Hone : ∀ type byte_length r t w1,
    (name ← GetMemberNameAtIndex ir_ compiler_ fuel struct_type i "";
     mret (result ++ [{| sm_type := type; sm_name := name;
                         sm_offset := total;
                         sm_byte_length := byte_length |}],
           wrap_size (total + byte_length))) w = Returned (r, t) w1 →
    ∃ new, r = result ++ new ∧
      anonymous_from (sUnnamedMembersID w) new ∧
      sUnnamedMembersID w1 = advance (length new) (sUnnamedMembersID w) ∧
      resources_seen w1 = resources_seen w).
  { intros type byte_length r t w1 E.
    rewrite bind_run, GetMemberNameAtIndex_anonymous in E by done.
    rewrite ret_run in E. injection E as <- _ <-.
    eexists [_]. split; [done|]. simpl.
    split; [|done]. split; [|done]. exists "". split; [set_solver|done]. }
  split_branches H;
    try (apply Hone in H as (new & -> & ? & ? & ?); by exists new).
  - rewrite bind_run, GetMemberNameAtIndex_anonymous in H by done.
    rewrite bind_run, GetMemberNameAtIndex_anonymous in H by done.
    rewrite ret_run in H. injection H as <- _ <-.
    eexists [_; _]. rewrite <-app_assoc. split; [done|]. simpl.
    split; [|done]. split; [exists ""; split; [set_solver|done]|].
    split; [|done]. exists "_pad". split; [set_solver|done].
Qed.

Lemma ReadStructMembers_from_anonymous fuel struct_type member_types :
  (∀ index,
     GetMemberNameAtIndexIfExists ir_ compiler_ fuel struct_type index =
       Some None) →
  ∀ i result total w members w',
  ReadStructMembers_from host ir_ compiler_ fuel struct_type i member_types
    result total w = Returned members w' →
  ∃ more,
    members = result ++ more ∧
    anonymous_from (sUnnamedMembersID w) more ∧
    sUnnamedMembersID w' = advance (length more) (sUnnamedMembersID w) ∧
    resources_seen w' = resources_seen w.
Proof.
  intros Hanon.
  induction member_types as [|member_type rest IH];
    intros i result total w members w' H; simpl in H.
  - rewrite ret_run in H. injection H as <- <-.
    exists []. by rewrite app_nil_r.
  - apply bind_Returned_inv in H as ([result1 total1] & w1 & Hstep & H).
    apply ReadStructMember_anonymous in Hstep
      as (new & -> & Hnew & Hcount & Hseen); [|done].
    apply IH in H as (more & -> & Hmore & Hcount' & Hseen').
    exists (new ++ more). split; [by rewrite app_assoc|].
    split_and!.
    + apply anonymous_from_app. split; [done|]. by rewrite <-Hcount.
    + by rewrite Hcount', Hcount, length_app, advance_add.
    + congruence.
Qed.

(** Extra X10: reflecting a struct whose type declares no member name
    gives every member the next anonymous name: the counter advances by the
    number of members emitted, padding members included, and as long as it
    does not wrap around the member names are pairwise distinct. *)
Theorem ReflectStructDefinition_anonymous fuel id w struc w' :
  (∀ index,
     GetMemberNameAtIndexIfExists ir_ compiler_ fuel
       (get_type compiler_ id) index = Some None) →
  ReflectStructDefinition host ir_ compiler_ fuel id w =
    Returned (Some struc) w' →
  let k := length (sd_members struc) in
  anonymous_from (sUnnamedMembersID w) (sd_members struc) ∧
  sUnnamedMembersID w' = advance k (sUnnamedMembersID w) ∧
  resources_seen w' = resources_seen w ∧
  (0 ≤ sUnnamedMembersID w → sUnnamedMembersID w + Z.of_nat k ≤ 2 ^ 64 →
   NoDup (sm_name <$> sd_members struc)).
Proof.
  intros Hanon H k. unfold ReflectStructDefinition in H.
  case_bool_decide; [done|].
  destruct (string_contains _ _); [done|].
  apply bind_Returned_inv in H as (members & w1 & Hmembers & H).
  rewrite ret_run in H. injection H as <- <-. simpl in *.
  unfold ReadStructMembers in Hmembers.
  apply bind_Returned_inv in Hmembers as ([] & w2 & Hcheck & Hmembers).
  unfold FML_CHECK in Hcheck. case_bool_decide; [|done].
  injection Hcheck as <-.
  apply ReadStructMembers_from_anonymous in Hmembers
    as (more & -> & Hmore & Hcount & Hseen); [|done].
  simpl in *. split_and!; try done.
  intros Hc Hfit. by eapply anonymous_from_NoDup.
Qed.

End StructMembers.

(** ** The per-vertex structure *)

Section PerVertexMembers.

Variable host : Host.
Variable compiler_ : CompilerMSL.

(** Extra X11: when [float] is 4 bytes, the type name
    [VertexTypeFromInputResource] gives an input always stands for the byte
    length it gives it: 8 for a point, 16 for a 4-component vector, 12 for a
    3-component vector, and otherwise the padding type of exactly that
    length. *)
Theorem VertexTypeFromInputResource_name_length resource :
  usize (sizeof_float host) = 4 →
  let vertex_type := VertexTypeFromInputResource host compiler_ resource in
  (vt_type_name vertex_type = "Point" ∧ vt_byte_length vertex_type = 8) ∨
  (vt_type_name vertex_type = "Vector4" ∧ vt_byte_length vertex_type = 16) ∨
  (vt_type_name vertex_type = "Vector3" ∧ vt_byte_length vertex_type = 12) ∨
  vt_type_name vertex_type =
    TypeNameWithPaddingOfSize (vt_byte_length vertex_type).
Proof.
  intros Hfloat. unfold VertexTypeFromInputResource. cbv zeta. simpl.
  set (type := get_type compiler_ (type_id resource)).
  rewrite Hfloat. change (wrap_size (4 * 8)) with 32.
  repeat match goal with
  | |- context [if ?c then _ else _] => destruct c eqn:?
  end;
    repeat match goal with
    | H : _ && _ = true |- _ => apply andb_true_iff in H as [? ?]
    | H : bool_decide _ = true |- _ => apply bool_decide_eq_true_1 in H
    | H : u32 _ = _ |- _ => rewrite H
    end; auto.
Qed.

Lemma input_for_location_unique stage_inputs input :
  NoDup (locations_of compiler_ stage_inputs) →
  input ∈ stage_inputs →
  input_for_location compiler_ stage_inputs (location_of compiler_ input) =
    Some input.
Proof.
  induction stage_inputs as [|first rest IH]; simpl; intros Hnodup Hin.
  - by apply elem_of_nil in Hin.
  - apply NoDup_cons in Hnodup as [Hfirst Hnodup].
    apply elem_of_cons in Hin as [->|Hin].
    + by rewrite bool_decide_eq_true_2.
    + case_bool_decide as Hloc; [|by apply IH].
      destruct Hfirst. rewrite Hloc.
      unfold locations_of. by apply list_elem_of_fmap_2.
Qed.

Lemma per_vertex_members_sources stage_inputs indices : ∀ struc struc',
  per_vertex_members host compiler_ stage_inputs indices struc = Some struc' →
  ∃ more,
    sd_members struc' = sd_members struc ++ more ∧
    Forall2 (λ (i : nat) member, ∃ input,
               input ∈ stage_inputs ∧
               location_of compiler_ input = wrap32 (Z.of_nat i) ∧
               let vertex_type :=
                 VertexTypeFromInputResource host compiler_ input in
               sm_name member = res_name input ∧
               sm_type member = vt_type_name vertex_type ∧
               sm_byte_length member = vt_byte_length vertex_type)
      indices more.
Proof.
  induction indices as [|i rest IH]; intros struc struc' H; simpl in H.
  - injection H as <-. exists []. by rewrite app_nil_r.
  - pose proof (input_for_location_spec compiler_ stage_inputs
                  (wrap32 (Z.of_nat i))) as Hfind.
    destruct (input_for_location _ _ _) as [resource|]; [|done].
    destruct Hfind as [Hin Hloc].
    apply IH in H as (more & Hmembers & Hall). simpl in Hmembers.
    eexists (_ :: more). rewrite Hmembers, <-app_assoc. split; [done|].
    constructor; [|done]. exists resource. by split_and!.
Qed.

(** Extra X12: in a synthesized per-vertex structure member [i] is made
    from the stage input declared at location [i]: it has the name of that
    input and the type name and byte length
    [VertexTypeFromInputResource] gives it. *)
Theorem ReflectPerVertexStructDefinition_members stage_inputs struc :
  ReflectPerVertexStructDefinition host compiler_ stage_inputs = Some struc →
  ∀ (i : nat) member,
    sd_members struc !! i = Some member →
    ∃ input,
      input ∈ stage_inputs ∧
      location_of compiler_ input = Z.of_nat i ∧
      let vertex_type := VertexTypeFromInputResource host compiler_ input in
      sm_name member = res_name input ∧
      sm_type member = vt_type_name vertex_type ∧
      sm_byte_length member = vt_byte_length vertex_type.
Proof.
  unfold ReflectPerVertexStructDefinition. intros H i member Hi.
  case_bool_decide; [done|].
  pose proof (collect_locations_spec compiler_ stage_inputs ∅) as Hcollect.
  destruct (collect_locations _ _ _) as [locations|]; [|done].
  destruct Hcollect as (_ & Hmem & Hsize).
  destruct (locations_contiguous locations); [|done]. simpl in H.
  assert (Hk : Z.of_nat (size locations) ≤ 2 ^ 32).
  { apply size_u32_set. intros x [Hx|Hx]%Hmem; [|set_solver].
    apply list_elem_of_fmap in Hx as (input & -> & _).
    apply location_of_bounds. }
  apply per_vertex_members_sources in H as (more & Hmembers & Hall).
  simpl in Hmembers. subst more.
  destruct (Forall2_lookup_r _ _ _ _ _ Hall Hi)
    as (j & Hj & input & Hin & Hloc & Hrest).
  apply lookup_seq in Hj as [-> Hlt]. simpl in *.
  exists input. split; [done|]. split; [|done].
  rewrite Hloc. apply wrap32_small. lia.
Qed.

Lemma input_for_location_perm stage_inputs stage_inputs' q :
  stage_inputs ≡ₚ stage_inputs' →
  NoDup (locations_of compiler_ stage_inputs) →
  input_for_location compiler_ stage_inputs q =
  input_for_location compiler_ stage_inputs' q.
Proof.
  intros Hperm Hnodup.
  assert (Hnodup' : NoDup (locations_of compiler_ stage_inputs')).
  { unfold locations_of in *. by rewrite <-Hperm. }
  pose proof (input_for_location_spec compiler_ stage_inputs q) as H.
  pose proof (input_for_location_spec compiler_ stage_inputs' q) as H'.
  destruct (input_for_location compiler_ stage_inputs q) as [input|] eqn:E.
  - destruct H as [Hin <-]. symmetry.
    apply input_for_location_unique; [done|]. by rewrite <-Hperm.
  - destruct (input_for_location compiler_ stage_inputs' q) as [input'|];
      [|done].
    destruct H' as [Hin' Hloc']. destruct H.
    rewrite <-Hloc'. unfold locations_of.
    apply list_elem_of_fmap_2. by rewrite Hperm.
Qed.

Lemma per_vertex_members_ext stage_inputs stage_inputs' indices :
  (∀ q, input_for_location compiler_ stage_inputs q =
        input_for_location compiler_ stage_inputs' q) →
  ∀ struc,
    per_vertex_members host compiler_ stage_inputs indices struc =
    per_vertex_members host compiler_ stage_inputs' indices struc.
Proof.
  intros Hext. induction indices as [|i rest IH]; intros struc; simpl.
  - done.
  - rewrite Hext. destruct (input_for_location _ _ _); [apply IH|done].
Qed.

(** Extra X13: the synthesized per-vertex structure does not depend on the
    order in which the stage inputs are listed; in particular a list that
    is rejected is rejected in every order. *)
Theorem ReflectPerVertexStructDefinition_perm stage_inputs stage_inputs' :
  stage_inputs ≡ₚ stage_inputs' →
  ReflectPerVertexStructDefinition host compiler_ stage_inputs =
  ReflectPerVertexStructDefinition host compiler_ stage_inputs'.
Proof.
  intros Hperm. unfold ReflectPerVertexStructDefinition.
  assert (Hlocs : locations_of compiler_ stage_inputs ≡ₚ
                  locations_of compiler_ stage_inputs')
    by (unfold locations_of; by rewrite Hperm).
  destruct (decide (stage_inputs = [])) as [Hnil|Hne].
  { assert (stage_inputs' = []) as Hnil'
      by (subst; by apply Permutation_nil_l in Hperm).
    by rewrite !bool_decide_eq_true_2. }
  assert (Hne' : stage_inputs' ≠ []).
  { intros ->. by apply Permutation_nil_r in Hperm. }
  rewrite !bool_decide_eq_false_2 by done.
  pose proof (collect_locations_spec compiler_ stage_inputs ∅) as H.
  pose proof (collect_locations_spec compiler_ stage_inputs' ∅) as H'.
  destruct (collect_locations compiler_ stage_inputs ∅) as [locations|],
    (collect_locations compiler_ stage_inputs' ∅) as [locations'|].
  - destruct H as (Hnodup & Hmem & _), H' as (_ & Hmem' & _).
    assert (locations = locations') as <-.
    { apply set_eq. intros x. rewrite Hmem, Hmem', Hlocs. done. }
    destruct (locations_contiguous locations); [|done]. simpl.
    apply per_vertex_members_ext. intros q.
    by apply input_for_location_perm.
  - destruct H' , H as (Hnodup & _ & _).
    split; [by rewrite <-Hlocs|set_solver].
  - destruct H, H' as (Hnodup & _ & _).
    split; [by rewrite Hlocs|set_solver].
  - done.
Qed.

End PerVertexMembers.

(** ** Termination of struct reflection *)

Section StructReturns.

Variable host : Host.
Variable ir_ : ParsedIR.
Variable compiler_ : CompilerMSL.

Lemma ReadStructMember_returns fuel struct_type n u i member result total w :
  alias_chain compiler_ struct_type n u → (n < fuel)%nat →
  ∃ r w',
    ReadStructMember host ir_ compiler_ fuel struct_type i member result
      total w = Returned r w'.
Proof.
  intros Hchain Hfuel.
  assert (Hname : ∀ suffix w0, ∃ name w1,
    GetMemberNameAtIndex ir_ compiler_ fuel struct_type i suffix w0 =
      Returned name w1).
  { intros suffix w0.
    destruct (GetMemberNameAtIndex_returns ir_ compiler_ struct_type n u i
                suffix fuel w0 Hchain Hfuel) as (name & w1 & ? & _).
    eauto. }
  unfold ReadStructMember. cbv zeta.
  destruct (Hname "" w) as (name & w1 & E).
  destruct (Hname "_pad" w1) as (pad_name & w2 & Epad).
  repeat match goal with
  | |- context [match ReadKnownScalarType ?h ?t with _ => _ end] =>
      destruct (ReadKnownScalarType h t) eqn:?
  | |- context [if ?c then _ else _] => destruct c eqn:?
  end;
    rewrite bind_run, E; cbv beta;
    rewrite ?bind_run, ?Epad, ?ret_run; eauto.
Qed.

Lemma ReadStructMembers_from_returns fuel struct_type n u member_types :
  alias_chain compiler_ struct_type n u → (n < fuel)%nat →
  ∀ i result total w, ∃ members w',
    ReadStructMembers_from host ir_ compiler_ fuel struct_type i member_types
      result total w = Returned members w'.
Proof.
  intros Hchain Hfuel.
  induction member_types as [|member_type rest IH];
    intros i result total w; simpl.
  - rewrite ret_run. eauto.
  - destruct (ReadStructMember_returns fuel struct_type n u i
                (get_type compiler_ member_type) result total w Hchain Hfuel)
      as ([result1 total1] & w1 & E).
    rewrite bind_run, E. apply IH.
Qed.

Lemma ReflectStructDefinition_returns fuel id n u w :
  alias_chain compiler_ (get_type compiler_ id) n u → (n < fuel)%nat →
  ∃ r w',
    ReflectStructDefinition host ir_ compiler_ fuel id w = Returned r w'.
Proof.
  intros Hchain Hfuel. unfold ReflectStructDefinition.
  case_bool_decide as Hstruct; [rewrite ret_run; eauto|].
  destruct (string_contains _ _); [rewrite ret_run; eauto|].
  unfold ReadStructMembers. rewrite !bind_run. unfold FML_CHECK.
  rewrite bool_decide_eq_true_2 by (by destruct (decide
    (basetype (get_type compiler_ id) = Struct)); [|destruct Hstruct]).
  destruct (ReadStructMembers_from_returns fuel (get_type compiler_ id) n u
              (member_types (get_type compiler_ id)) Hchain Hfuel 0%nat [] 0 w)
    as (members & w' & E).
  rewrite E, ret_run. eauto.
Qed.

(** Extra X14: [ReflectStructDefinition] returns, for every identifier
    whose type has an alias chain that ends, as soon as the recursion budget
    exceeds the length of the chain; what it returns is a definition exactly
    when the type is a struct whose name does not contain the reserved
    marker. *)
Theorem ReflectStructDefinition_terminates fuel id n u w :
  alias_chain compiler_ (get_type compiler_ id) n u → (n < fuel)%nat →
  ∃ r w',
    ReflectStructDefinition host ir_ compiler_ fuel id w = Returned r w' ∧
    (is_Some r ↔ reflectable compiler_ id = true).
Proof.
  intros Hchain Hfuel.
  destruct (ReflectStructDefinition_returns fuel id n u w Hchain Hfuel)
    as (r & w' & E).
  exists r, w'. split; [done|].
  by eapply ReflectStructDefinition_reflectable.
Qed.

(** The outcomes that are not the end of the process. *)
Lemma GetMemberNameAtIndex_alive fuel t index suffix w :
  GetMemberNameAtIndex ir_ compiler_ fuel t index suffix w ≠ Aborted.
Proof.
  unfold GetMemberNameAtIndex.
  by destruct (GetMemberNameAtIndexIfExists _ _ _ _ _) as [[?|]|].
Qed.

Lemma bind_alive {A B} (m : Run A) (k : A → Run B) w :
  m w ≠ Aborted → (∀ a w1, k a w1 ≠ Aborted) → (m ≫= k) w ≠ Aborted.
Proof. rewrite bind_run. intros Hm Hk. destruct (m w); auto. Qed.

Lemma ReadStructMember_alive fuel struct_type i member result total w :
  ReadStructMember host ir_ compiler_ fuel struct_type i member result
    total w ≠ Aborted.
Proof.
  unfold ReadStructMember. cbv zeta.
  repeat match goal with
  | |- context [match ReadKnownScalarType ?h ?t with _ => _ end] =>
      destruct (ReadKnownScalarType h t) eqn:?
  | |- context [if ?c then _ else _] => destruct c eqn:?
  end;
    repeat (apply bind_alive;
            [apply GetMemberNameAtIndex_alive|intros ? ?]); done.
Qed.

Lemma ReadStructMembers_from_alive fuel struct_type member_types :
  ∀ i result total w,
    ReadStructMembers_from host ir_ compiler_ fuel struct_type i member_types
      result total w ≠ Aborted.
Proof.
  induction member_types as [|member_type rest IH];
    intros i result total w; simpl; [done|].
  apply bind_alive; [apply ReadStructMember_alive|].
  intros [result1 total1] w1. apply IH.
Qed.

Lemma ReflectStructDefinition_alive fuel id w :
  ReflectStructDefinition host ir_ compiler_ fuel id w ≠ Aborted.
Proof.
  unfold ReflectStructDefinition.
  case_bool_decide as Hstruct; [done|].
  destruct (string_contains _ _); [done|].
  apply bind_alive; [|done].
  unfold ReadStructMembers. apply bind_alive.
  - unfold FML_CHECK. by rewrite bool_decide_eq_true_2.
  - intros _ w1. apply ReadStructMembers_from_alive.
Qed.

Lemma ReflectStructDefinitions_from_alive fuel types :
  ∀ known_structs struct_definitions w,
    ReflectStructDefinitions_from host ir_ compiler_ fuel types known_structs
      struct_definitions w ≠ Aborted.
Proof.
  induction types as [|type rest IH]; intros known defs w; simpl; [done|].
  case_bool_decide; [apply IH|].
  apply bind_alive; [apply ReflectStructDefinition_alive|].
  intros [struc|] w1; apply IH.
Qed.

Lemma ReflectStructDefinitions_from_returns fuel types :
  (∀ type, type ∈ types → ∃ n u,
     alias_chain compiler_ (get_type compiler_ (self type)) n u ∧
     (n < fuel)%nat) →
  ∀ known_structs struct_definitions w, ∃ struct_definitions' w',
    ReflectStructDefinitions_from host ir_ compiler_ fuel types known_structs
      struct_definitions w = Returned struct_definitions' w'.
Proof.
  induction types as [|type rest IH]; intros Hchains known defs w; simpl.
  - rewrite ret_run. eauto.
  - assert (Hrest : ∀ type', type' ∈ rest → ∃ n u,
       alias_chain compiler_ (get_type compiler_ (self type')) n u ∧
       (n < fuel)%nat)
      by (intros type' Hin; apply Hchains; by right).
    case_bool_decide; [by apply IH|].
    destruct (Hchains type) as (n & u & Hchain & Hfuel); [by left|].
    destruct (ReflectStructDefinition_returns fuel (self type) n u w
                Hchain Hfuel) as (r & w1 & E).
    rewrite bind_run, E. destruct r; by apply IH.
Qed.

End StructReturns.

(** ** The document *)

Section Document.

Variable host : Host.
Variable options_ : Options.
Variable ir_ : ParsedIR.
Variable compiler_ : CompilerMSL.

(** Extra X15: document assembly never ends the process: the check at the
    head of [ReadStructMembers] is never reached with a type that is not a
    struct, so an assembly either returns or is still walking an alias
    chain when the budget runs out. *)
Theorem GenerateTemplateArguments_alive fuel w :
  GenerateTemplateArguments host options_ ir_ compiler_ fuel w = OutOfFuel ∨
  ∃ r w',
    GenerateTemplateArguments host options_ ir_ compiler_ fuel w =
      Returned r w'.
Proof.
  destruct (get_entry_points_and_stages compiler_) as [|front [|]] eqn:Hentry;
    try (right; unfold GenerateTemplateArguments; rewrite Hentry;
         eexists _, _; reflexivity).
  destruct (GenerateTemplateArguments_run host options_ ir_ compiler_ fuel w
              front Hentry) as (ubs & ins & combined & images & samplers &
                                outs & _ & _ & _ & _ & _ & _ & E).
  rewrite E. clear E.
  pose proof (ReflectStructDefinitions_from_alive host ir_ compiler_ fuel
    (typed_ids ir_) ∅ (per_vertex_definitions host compiler_ front)
    (after_reflecting
       (uniform_buffers (get_shader_resources compiler_) ++
        stage_inputs (get_shader_resources compiler_) ++
        sampled_images (get_shader_resources compiler_) ++
        separate_images (get_shader_resources compiler_) ++
        separate_samplers (get_shader_resources compiler_) ++
        stage_outputs (get_shader_resources compiler_)) w)) as Halive.
  destruct (ReflectStructDefinitions_from _ _ _ _ _ _ _ _); eauto. done.
Qed.

(** Extra X16: when the alias chain of every type of the type sequence
    ends within the budget, document assembly returns, and it returns a
    document exactly when the module has one entry point: resource
    reflection and the struct walk never make it fail. *)
Theorem GenerateTemplateArguments_terminates fuel w :
  (∀ type, type ∈ typed_ids ir_ → ∃ n u,
     alias_chain compiler_ (get_type compiler_ (self type)) n u ∧
     (n < fuel)%nat) →
  ∃ r w',
    GenerateTemplateArguments host options_ ir_ compiler_ fuel w =
      Returned r w' ∧
    (is_Some r ↔ length (get_entry_points_and_stages compiler_) = 1%nat).
Proof.
  intros Hchains.
  destruct (get_entry_points_and_stages compiler_) as [|front [|]] eqn:Hentry;
    try (unfold GenerateTemplateArguments; rewrite Hentry;
         eexists _, _; split; [reflexivity|];
         split; [by intros [? ?]|done]).
  destruct (GenerateTemplateArguments_run host options_ ir_ compiler_ fuel w
              front Hentry) as (ubs & ins & combined & images & samplers &
                                outs & _ & _ & _ & _ & _ & _ & E).
  rewrite E. clear E.
  destruct (ReflectStructDefinitions_from_returns host ir_ compiler_ fuel
    (typed_ids ir_) Hchains ∅ (per_vertex_definitions host compiler_ front)
    (after_reflecting
       (uniform_buffers (get_shader_resources compiler_) ++
        stage_inputs (get_shader_resources compiler_) ++
        sampled_images (get_shader_resources compiler_) ++
        separate_images (get_shader_resources compiler_) ++
        separate_samplers (get_shader_resources compiler_) ++
        stage_outputs (get_shader_resources compiler_)) w))
    as (defs & w' & E).
  rewrite E. eexists _, _. split; [done|]. split; eauto.
Qed.

(** Extra X17: a returned document is an object with exactly the nine keys
    of the source; "entrypoint" is the name of the entry point,
    "shader_stage" the stage name of its execution model, and "shader_name"
    and "header_file_name" are the options unchanged. *)
Theorem GenerateTemplateArguments_keys fuel w root w' :
  GenerateTemplateArguments host options_ ir_ compiler_ fuel w =
    Returned (Some root) w' →
  ∃ o front,
    root = JObject o ∧
    get_entry_points_and_stages compiler_ = [front] ∧
    dom o = document_keys ∧
    o !! "entrypoint" = Some (JString (ep_name front)) ∧
    o !! "shader_name" = Some (JString (shader_name options_)) ∧
    o !! "shader_stage" =
      Some (JString (ExecutionModelToString (execution_model front))) ∧
    o !! "header_file_name" = Some (JString (header_file_name options_)).
Proof.
  intros Hrun.
  destruct (get_entry_points_and_stages compiler_) as [|front [|]] eqn:Hentry;
    try (unfold GenerateTemplateArguments in Hrun; rewrite Hentry in Hrun;
         by inversion Hrun).
  destruct (GenerateTemplateArguments_run host options_ ir_ compiler_ fuel w
              front Hentry) as (ubs & ins & combined & images & samplers &
                                outs & _ & _ & _ & _ & _ & _ & E).
  rewrite E in Hrun. clear E.
  destruct (ReflectStructDefinitions_from _ _ _ _ _ _ _ _); [|done..].
  injection Hrun as <- _. unfold assembled.
  eexists _, front. split; [reflexivity|]. split; [done|].
  split; [rewrite !dom_insert_L, dom_empty_L; unfold document_keys;
          set_solver|].
  repeat split; by rewrite ?lookup_insert_ne by done; rewrite lookup_insert_eq.
Qed.

(** Extra X18: in a returned document "uniform_buffers", "stage_inputs"
    and "stage_outputs" hold, in the order of their resource lists, the
    values reflected for the uniform buffers, the stage inputs and the stage
    outputs; one value per resource. *)
Theorem GenerateTemplateArguments_resource_arrays fuel w root w' :
  GenerateTemplateArguments host options_ ir_ compiler_ fuel w =
    Returned (Some root) w' →
  let res := get_shader_resources compiler_ in
  ∃ ubs ins outs,
    Forall2 (reflects compiler_) (uniform_buffers res) ubs ∧
    Forall2 (reflects compiler_) (stage_inputs res) ins ∧
    Forall2 (reflects compiler_) (stage_outputs res) outs ∧
    json_get "uniform_buffers" root = Some (JArray ubs) ∧
    json_get "stage_inputs" root = Some (JArray ins) ∧
    json_get "stage_outputs" root = Some (JArray outs).
Proof.
  intros Hrun res.
  destruct (get_entry_points_and_stages compiler_) as [|front [|]] eqn:Hentry;
    try (unfold GenerateTemplateArguments in Hrun; rewrite Hentry in Hrun;
         by inversion Hrun).
  destruct (GenerateTemplateArguments_run host options_ ir_ compiler_ fuel w
              front Hentry) as (ubs & ins & combined & images & samplers &
                                outs & Hubs & Hins & _ & _ & _ & Houts & E).
  rewrite E in Hrun. clear E.
  destruct (ReflectStructDefinitions_from _ _ _ _ _ _ _ _); [|done..].
  injection Hrun as <- _. unfold assembled, json_get.
  exists ubs, ins, outs. repeat (split; [done|]).
  repeat split; by rewrite ?lookup_insert_ne by done; rewrite lookup_insert_eq.
Qed.

End Document.

(** ** Emitted struct definitions *)

Lemma JObject_inj (o1 o2 : gmap string json) :
  JObject o1 = JObject o2 → o1 = o2.
Proof.
  intros H.
  exact (f_equal (λ j, match j with JObject o => o | _ => o1 end) H).
Qed.

Lemma JArray_inj (l1 l2 : list json) : JArray l1 = JArray l2 → l1 = l2.
Proof.
  intros H.
  exact (f_equal (λ j, match j with JArray l => l | _ => l1 end) H).
Qed.

Lemma EmitStructMember_inj (m1 m2 : StructMember) :
  EmitStructMember m1 = EmitStructMember m2 → m1 = m2.
Proof.
  unfold EmitStructMember. intros H%JObject_inj.
  pose proof (f_equal (λ o : gmap string json, o !! "byte_length") H) as Hlen.
  pose proof (f_equal (λ o : gmap string json, o !! "offset") H) as Hoff.
  pose proof (f_equal (λ o : gmap string json, o !! "type") H) as Htype.
  pose proof (f_equal (λ o : gmap string json, o !! "name") H) as Hname.
  cbv beta in Hlen, Hoff, Htype, Hname.
  repeat ((rewrite lookup_insert_ne in Hlen by done) ||
          rewrite lookup_insert_eq in Hlen).
  repeat ((rewrite lookup_insert_ne in Hoff by done) ||
          rewrite lookup_insert_eq in Hoff).
  repeat ((rewrite lookup_insert_ne in Htype by done) ||
          rewrite lookup_insert_eq in Htype).
  repeat ((rewrite lookup_insert_ne in Hname by done) ||
          rewrite lookup_insert_eq in Hname).
  injection Hlen as Hlen. injection Hoff as Hoff.
  injection Htype as Htype. injection Hname as Hname.
  destruct m1, m2; simpl in *. by subst.
Qed.

(** Extra X19: the emitted JSON loses nothing of a struct definition: two
    definitions emitted as the same object have the same name, byte length
    and members. *)
Theorem EmitStructDefinition_inj (struc1 struc2 : StructDefinition) :
  EmitStructDefinition struc1 = EmitStructDefinition struc2 →
  struc1 = struc2.
Proof.
  unfold EmitStructDefinition. intros H%JObject_inj.
  pose proof (f_equal (λ o : gmap string json, o !! "members") H) as Hmembers.
  pose proof (f_equal (λ o : gmap string json, o !! "byte_length") H) as Hlen.
  pose proof (f_equal (λ o : gmap string json, o !! "name") H) as Hname.
  cbv beta in Hmembers, Hlen, Hname.
  repeat ((rewrite lookup_insert_ne in Hmembers by done) ||
          rewrite lookup_insert_eq in Hmembers).
  repeat ((rewrite lookup_insert_ne in Hlen by done) ||
          rewrite lookup_insert_eq in Hlen).
  repeat ((rewrite lookup_insert_ne in Hname by done) ||
          rewrite lookup_insert_eq in Hname).
  injection Hmembers as Hmembers. injection Hlen as Hlen.
  injection Hname as Hname.
  assert (sd_members struc1 = sd_members struc2).
  { assert (Inj (=) (=) EmitStructMember)
      by (intros m1 m2; apply EmitStructMember_inj).
    by apply (inj (fmap EmitStructMember)). }
  destruct struc1, struc2; simpl in *. by subst.
Qed.

(** ** The [Reflector] object *)

Section ReflectorObject.

Variable host : Host.
Variable codegen : CodeGen.
Variable options_ : Options.

Lemma InflateTemplate_inv template_arguments tmpl w r w' :
  InflateTemplate codegen template_arguments tmpl w = Returned r w' →
  w' = w ∧
  r = inja_render codegen (ConvertToCamelCase codegen) StringToShaderStage
        tmpl template_arguments ∧
  is_Some r.
Proof.
  unfold InflateTemplate. destruct (inja_render _ _ _ _ _); [|done].
  intros [= <- <-]. eauto.
Qed.

(** Extra X20: a constructed [Reflector] is all or nothing.  Either it is
    valid and then the header, the implementation and the JSON dump are all
    there, or it is not valid and then none of the three is: no artifact is
    ever available without the others. *)
Theorem Reflector_ctor_all_or_nothing ir compiler fuel w r w' dump :
  Reflector_ctor host codegen options_ ir compiler fuel w = Returned r w' →
  (IsValid r = true ∧
   is_Some (GetReflectionHeader r) ∧
   is_Some (GetReflectionCC r) ∧
   is_Some (GetReflectionJSON dump r)) ∨
  (IsValid r = false ∧
   GetReflectionHeader r = None ∧
   GetReflectionCC r = None ∧
   GetReflectionJSON dump r = None).
Proof.
  unfold Reflector_ctor.
  destruct ir as [ir|], compiler as [compiler|];
    try (rewrite ret_run; intros [= <- _]; by right).
  intros H.
  apply bind_Returned_inv in H as ([args|] & w1 & _ & H);
    [|rewrite ret_run in H; injection H as <- _; by right].
  apply bind_Returned_inv in H as (header & w2 & Hheader & H).
  apply InflateTemplate_inv in Hheader as (-> & _ & [h ->]).
  apply bind_Returned_inv in H as (cc & w3 & Hcc & H).
  apply InflateTemplate_inv in Hcc as (-> & _ & [c ->]).
  rewrite ret_run in H. injection H as <- _.
  left. unfold IsValid, GetReflectionHeader, GetReflectionCC,
    GetReflectionJSON. simpl. eauto.
Qed.

(** Extra X21: once document assembly has returned a document, the
    constructor renders the header template and then the implementation
    template against it: if both render, the [Reflector] is valid and holds
    the document and the two rendered texts; if either rendering throws, the
    exception leaves the constructor. *)
Theorem Reflector_ctor_renders ir compiler fuel w template_arguments w' :
  GenerateTemplateArguments host options_ ir compiler fuel w =
    Returned (Some template_arguments) w' →
  let render tmpl :=
    inja_render codegen (ConvertToCamelCase codegen) StringToShaderStage
      tmpl template_arguments in
  Reflector_ctor host codegen options_ (Some ir) (Some compiler) fuel w =
    match render (kReflectionHeaderTemplate codegen),
          render (kReflectionCCTemplate codegen) with
    | Some header, Some cc =>
        Returned {| template_arguments_ := Some template_arguments;
                    reflection_header_ := Some header;
                    reflection_cc_ := Some cc;
                    is_valid_ := true |} w'
    | _, _ => Aborted
    end.
Proof.
  intros Hrun render. unfold Reflector_ctor.
  rewrite bind_run, Hrun.
  unfold GenerateReflectionHeader, GenerateReflectionCC.
  subst render. cbv beta.
  rewrite bind_run. unfold InflateTemplate at 1.
  destruct (inja_render codegen _ _ (kReflectionHeaderTemplate codegen) _)
    as [header|]; [|done].
  rewrite bind_run. unfold InflateTemplate.
  by destruct (inja_render codegen _ _ (kReflectionCCTemplate codegen) _)
    as [cc|].
Qed.

End ReflectorObject.

(** ** The other layout rules, run forward *)

Section LayoutRules.

Variable host : Host.
Variable ir_ : ParsedIR.
Variable compiler_ : CompilerMSL.

Lemma emplace_one_returns fuel struct_type n u i type byte_length result
    total w :
  alias_chain compiler_ struct_type n u → (n < fuel)%nat →
  ∃ name w',
    (name ← GetMemberNameAtIndex ir_ compiler_ fuel struct_type i "";
     mret (result ++ [{| sm_type := type; sm_name := name;
                         sm_offset := total;
                         sm_byte_length := byte_length |}],
           wrap_size (total + byte_length))) w =
    Returned
      (result ++ [{| sm_type := type; sm_name := name; sm_offset := total;
                     sm_byte_length := byte_length |}],
       wrap_size (total + byte_length)) w'.
Proof.
  intros Hchain Hfuel.
  destruct (GetMemberNameAtIndex_returns ir_ compiler_ struct_type n u i ""
              fuel w Hchain Hfuel) as (name & w1 & Hname & _).
  exists name, w1. by rewrite bind_run, Hname.
Qed.

(** Extra X22: a float member with one column and 2, 3 or 4 components
    whose width is that of the host [float] becomes exactly one member, of
    type Point, Vector3 or Vector4 and of the host size of that type, and a
    4 by 4 float matrix whose width is that of [Scalar] exactly one member
    of type Matrix: the composite rules never add padding. *)
Theorem composite_member_rule fuel struct_type n u i member result total w :
  alias_chain compiler_ struct_type n u → (n < fuel)%nat →
  basetype member = Float →
  ∀ type byte_length,
    ((width member : Z) = wrap_size (sizeof_Scalar host * 8) ∧
     (columns member : Z) = 4 ∧ (vecsize member : Z) = 4 ∧
     type = "Matrix" ∧ byte_length = usize (sizeof_Matrix host)) ∨
    ((width member : Z) = wrap_size (sizeof_float host * 8) ∧
     (columns member : Z) = 1 ∧
     (((vecsize member : Z) = 2 ∧
       type = "Point" ∧ byte_length = usize (sizeof_Point host)) ∨
      ((vecsize member : Z) = 3 ∧
       type = "Vector3" ∧ byte_length = usize (sizeof_Vector3 host)) ∨
      ((vecsize member : Z) = 4 ∧
       type = "Vector4" ∧ byte_length = usize (sizeof_Vector4 host)))) →
    ∃ name w',
      ReadStructMember host ir_ compiler_ fuel struct_type i member result
        total w =
      Returned
        (result ++ [{| sm_type := type; sm_name := name; sm_offset := total;
                       sm_byte_length := byte_length |}],
         wrap_size (total + byte_length)) w'.
Proof.
  intros Hchain Hfuel Hfloat type byte_length Hrule.
  unfold ReadStructMember. cbv zeta.
  rewrite (bool_decide_eq_true_2 (basetype member = Float)) by done.
  destruct Hrule as [(Hw & Hc & Hv & -> & ->)|(Hw & Hc & Hrule)].
  - rewrite (bool_decide_eq_true_2 _ Hw), (bool_decide_eq_true_2 _ Hc),
      (bool_decide_eq_true_2 _ Hv). simpl.
    by eapply emplace_one_returns.
  - rewrite (bool_decide_eq_false_2 ((columns member : Z) = 4)) by lia.
    rewrite andb_false_r. cbn [andb].
    rewrite (bool_decide_eq_true_2 _ Hw), (bool_decide_eq_true_2 _ Hc).
    cbn [andb].
    destruct Hrule as [(Hv & -> & ->)|[(Hv & -> & ->)|(Hv & -> & ->)]].
    + rewrite (bool_decide_eq_true_2 _ Hv).
      by eapply emplace_one_returns.
    + rewrite (bool_decide_eq_false_2 ((vecsize member : Z) = 2)) by lia.
      rewrite (bool_decide_eq_true_2 _ Hv).
      by eapply emplace_one_returns.
    + rewrite (bool_decide_eq_false_2 ((vecsize member : Z) = 2)) by lia.
      rewrite (bool_decide_eq_false_2 ((vecsize member : Z) = 3)) by lia.
      rewrite (bool_decide_eq_true_2 _ Hv).
      by eapply emplace_one_returns.
Qed.

(** Extra X23: a member whose base type has no host scalar (a double, a
    half, a 64-bit integer, a nested struct, an image, ...) becomes exactly
    one opaque padding member whose length is the declared size of the
    member, [width * columns * vecsize / 8] in 32-bit arithmetic, whatever
    its shape. *)
Theorem opaque_member_rule fuel struct_type n u i member result total w :
  alias_chain compiler_ struct_type n u → (n < fuel)%nat →
  ReadKnownScalarType host (basetype member) = None →
  ∃ name w',
    ReadStructMember host ir_ compiler_ fuel struct_type i member result
      total w =
    Returned
      (result ++
       [{| sm_type := TypeNameWithPaddingOfSize (declared_size member);
           sm_name := name; sm_offset := total;
           sm_byte_length := declared_size member |}],
       wrap_size (total + declared_size member)) w'.
Proof.
  intros Hchain Hfuel Hnone.
  assert (Hfloat : basetype member ≠ Float) by (by intros Hf; rewrite Hf in Hnone).
  unfold ReadStructMember. cbv zeta.
  rewrite (bool_decide_eq_false_2 (basetype member = Float)) by done.
  cbn [andb]. rewrite Hnone.
  replace (wrap32 (width member * columns member * vecsize member) / 8)
    with (declared_size member)
    by (unfold declared_size; do 2 f_equal; lia).
  by eapply emplace_one_returns.
Qed.

(** Extra X30: the scalar rule as the specification words it (a padding
    member exactly when the declared bit width exceeds 8 times the mapped
    byte size, of [width / 8] minus that size bytes) is what the iteration
    does for every recognized scalar whose width is a whole number of bytes
    and not below the mapped size: the rule is left only where the
    subtraction wraps or the width has a fraction of a byte. *)
Theorem scalar_rule_as_stated_on_whole_bytes fuel struct_type n u i member
    result total w :
  alias_chain compiler_ struct_type n u → (n < fuel)%nat →
  (width member) mod 8 = 0 →
  (∀ known_type,
     ReadKnownScalarType host (basetype member) = Some known_type →
     kt_byte_size known_type ≤ width member / 8) →
  scalar_rule_as_stated host ir_ compiler_ fuel struct_type i member result
    total w.
Proof.
  intros Hchain Hfuel Hwhole Hsize known_type Hknown Hc Hv excess.
  destruct (ReadStructMember_scalar host ir_ compiler_ fuel struct_type n u
              i member known_type result total w Hchain Hfuel Hknown Hc Hv
              (Hsize _ Hknown))
    as (name & pad_name & total' & w' & E).
  exists name, pad_name, total', w'. rewrite E. fold excess.
  pose proof (Z.div_mod (width member) 8) as Hdiv.
  assert (Hiff : 0 < excess ↔ 8 * kt_byte_size known_type < width member)
    by (unfold excess; lia).
  by rewrite (bool_decide_ext _ _ Hiff).
Qed.

End LayoutRules.

(** ** The further properties on the sample modules *)

Lemma sample_chain_40 :
  alias_chain plain_compiler (sample_types 40) 2 (sample_types 42).
Proof.
  apply alias_chain_step; [by vm_compute|].
  apply (alias_chain_step plain_compiler (sample_types 41) 0
           (sample_types 42)); [by vm_compute|].
  apply alias_chain_end. reflexivity.
Defined.

Lemma sample_chain_13 :
  alias_chain plain_compiler (sample_types 13) 0 (sample_types 13).
Proof. apply alias_chain_end. reflexivity. Defined.

Lemma impeller_host_natural : natural_host impeller_host.
Proof. repeat split. Defined.

Lemma GetMemberNameAtIndex_spec_witness :
  (∀ a, declared_alias (sample_ir []) (sample_types 42) 0 a →
     GetMemberNameAtIndex (sample_ir []) plain_compiler 3 (sample_types 40)
       0 "" initial_world = Returned a initial_world) ∧
  ((∀ a, ¬ declared_alias (sample_ir []) (sample_types 42) 0 a) →
     GetMemberNameAtIndex (sample_ir []) plain_compiler 3 (sample_types 40)
       0 "" initial_world =
       Returned ("unnamed_" +:+ pretty (sUnnamedMembersID initial_world)
                 +:+ "")
         {| sUnnamedMembersID :=
              wrap_size (sUnnamedMembersID initial_world + 1);
            resources_seen := resources_seen initial_world |}).
Proof.
  apply (GetMemberNameAtIndex_spec (sample_ir []) plain_compiler 3
           (sample_types 40) 2 (sample_types 42) 0 "" initial_world
           sample_chain_40).
  lia.
Defined.

Lemma anonymous_name_determines_counter_witness :
  GetMemberNameAtIndex (sample_ir []) plain_compiler 1 (sample_types 13) 0
    "_pad" initial_world =
    Returned "unnamed_0_pad"
      {| sUnnamedMembersID := 1; resources_seen := [] |} ∧
  GetMemberNameAtIndex (sample_ir []) plain_compiler 1 (sample_types 10) 5
    "_pad" initial_world =
    Returned "unnamed_0_pad"
      {| sUnnamedMembersID := 1; resources_seen := [] |} ∧
  sUnnamedMembersID initial_world = sUnnamedMembersID initial_world ∧
  "_pad" = "_pad".
Proof.
  split; [reflexivity|]. split; [reflexivity|].
  apply (anonymous_name_determines_counter (sample_ir []) plain_compiler
           1 (sample_types 13) 0 "_pad" initial_world
           {| sUnnamedMembersID := 1; resources_seen := [] |}
           1 (sample_types 10) 5 "_pad" initial_world
           {| sUnnamedMembersID := 1; resources_seen := [] |}
           "unnamed_0_pad");
    try reflexivity; try (by vm_compute); set_solver.
Defined.

Lemma ReflectStructDefinition_member_count_witness :
  ReflectStructDefinition impeller_host (sample_ir []) plain_compiler 1 13
    initial_world =
    Returned (Some wide_struct)
      {| sUnnamedMembersID := 2; resources_seen := [] |} ∧
  (1 ≤ length (sd_members wide_struct) ≤ 2 * 1)%nat.
Proof.
  split; [vm_compute; reflexivity|].
  apply (ReflectStructDefinition_member_count impeller_host (sample_ir [])
           plain_compiler 1 13 initial_world wide_struct
           {| sUnnamedMembersID := 2; resources_seen := [] |}).
  vm_compute. reflexivity.
Defined.

Lemma ReflectStructDefinition_anonymous_witness :
  anonymous_from 0 (sd_members wide_struct) ∧
  sUnnamedMembersID {| sUnnamedMembersID := 2; resources_seen := [] |} =
    advance 2 0 ∧
  resources_seen {| sUnnamedMembersID := 2; resources_seen := [] |} = [] ∧
  (0 ≤ 0 → 0 + Z.of_nat 2 ≤ 2 ^ 64 →
   NoDup (sm_name <$> sd_members wide_struct)).
Proof.
  apply (ReflectStructDefinition_anonymous impeller_host (sample_ir [])
           plain_compiler 1 13 initial_world wide_struct
           {| sUnnamedMembersID := 2; resources_seen := [] |}).
  - intros index. reflexivity.
  - vm_compute. reflexivity.
Defined.

Lemma VertexTypeFromInputResource_name_length_witness :
  usize (sizeof_float impeller_host) = 4 ∧
  let vertex_type :=
    VertexTypeFromInputResource impeller_host vertex_compiler position_input
  in
  (vt_type_name vertex_type = "Point" ∧ vt_byte_length vertex_type = 8) ∨
  (vt_type_name vertex_type = "Vector4" ∧ vt_byte_length vertex_type = 16) ∨
  (vt_type_name vertex_type = "Vector3" ∧ vt_byte_length vertex_type = 12) ∨
  vt_type_name vertex_type =
    TypeNameWithPaddingOfSize (vt_byte_length vertex_type).
Proof.
  split; [reflexivity|].
  apply (VertexTypeFromInputResource_name_length impeller_host
           vertex_compiler position_input).
  reflexivity.
Defined.

Lemma ReflectPerVertexStructDefinition_members_witness :
  ∃ struc,
    ReflectPerVertexStructDefinition impeller_host vertex_compiler
      [color_input; position_input] = Some struc ∧
    ∀ (i : nat) member,
      sd_members struc !! i = Some member →
      ∃ input,
        input ∈ [color_input; position_input] ∧
        location_of vertex_compiler input = Z.of_nat i ∧
        let vertex_type :=
          VertexTypeFromInputResource impeller_host vertex_compiler input in
        sm_name member = res_name input ∧
        sm_type member = vt_type_name vertex_type ∧
        sm_byte_length member = vt_byte_length vertex_type.
Proof.
  eexists. split; [vm_compute; reflexivity|].
  apply (ReflectPerVertexStructDefinition_members impeller_host
           vertex_compiler [color_input; position_input]).
  vm_compute. reflexivity.
Defined.

Lemma ReflectPerVertexStructDefinition_perm_witness :
  [position_input; color_input] ≡ₚ [color_input; position_input] ∧
  ReflectPerVertexStructDefinition impeller_host vertex_compiler
    [position_input; color_input] =
  ReflectPerVertexStructDefinition impeller_host vertex_compiler
    [color_input; position_input].
Proof.
  split; [apply perm_swap|].
  apply (ReflectPerVertexStructDefinition_perm impeller_host vertex_compiler).
  apply perm_swap.
Defined.

Lemma ReflectStructDefinition_terminates_witness :
  ∃ r w',
    ReflectStructDefinition impeller_host (sample_ir []) plain_compiler 3 40
      initial_world = Returned r w' ∧
    (is_Some r ↔ reflectable plain_compiler 40 = true).
Proof.
  apply (ReflectStructDefinition_terminates impeller_host (sample_ir [])
           plain_compiler 3 40 2 (sample_types 42) initial_world
           sample_chain_40).
  lia.
Defined.

Lemma sample_chains_end :
  ∀ type, type ∈ typed_ids (sample_ir [13; 40]) → ∃ n u,
    alias_chain plain_compiler
      (get_type plain_compiler (self type)) n u ∧ (n < 3)%nat.
Proof.
  intros type Hin. simpl in Hin.
  apply elem_of_cons in Hin as [->|Hin].
  - exists 0%nat, (sample_types 13). split; [apply sample_chain_13|lia].
  - apply list_elem_of_singleton in Hin as ->.
    exists 2%nat, (sample_types 42). split; [apply sample_chain_40|lia].
Defined.

Lemma GenerateTemplateArguments_terminates_witness :
  ∃ r w',
    GenerateTemplateArguments impeller_host sample_options
      (sample_ir [13; 40]) plain_compiler 3 initial_world = Returned r w' ∧
    (is_Some r ↔
     length (get_entry_points_and_stages plain_compiler) = 1%nat).
Proof.
  apply (GenerateTemplateArguments_terminates impeller_host sample_options
           (sample_ir [13; 40]) plain_compiler 3 initial_world
           sample_chains_end).
Defined.

Lemma GenerateTemplateArguments_keys_witness :
  ∃ root w',
    GenerateTemplateArguments impeller_host sample_options (sample_ir [13])
      vertex_compiler 1 initial_world = Returned (Some root) w' ∧
    ∃ o front,
      root = JObject o ∧
      get_entry_points_and_stages vertex_compiler = [front] ∧
      dom o = document_keys ∧
      o !! "entrypoint" = Some (JString (ep_name front)) ∧
      o !! "shader_name" = Some (JString (shader_name sample_options)) ∧
      o !! "shader_stage" =
        Some (JString (ExecutionModelToString (execution_model front))) ∧
      o !! "header_file_name" =
        Some (JString (header_file_name sample_options)).
Proof.
  eexists _, _. split; [vm_compute; reflexivity|].
  eapply (GenerateTemplateArguments_keys impeller_host sample_options
            (sample_ir [13]) vertex_compiler 1 initial_world).
  vm_compute. reflexivity.
Defined.

Lemma GenerateTemplateArguments_resource_arrays_witness :
  ∃ root w',
    GenerateTemplateArguments impeller_host sample_options (sample_ir [13])
      vertex_compiler 1 initial_world = Returned (Some root) w' ∧
    ∃ ubs ins outs,
      Forall2 (reflects vertex_compiler)
        (uniform_buffers (get_shader_resources vertex_compiler)) ubs ∧
      Forall2 (reflects vertex_compiler)
        (stage_inputs (get_shader_resources vertex_compiler)) ins ∧
      Forall2 (reflects vertex_compiler)
        (stage_outputs (get_shader_resources vertex_compiler)) outs ∧
      json_get "uniform_buffers" root = Some (JArray ubs) ∧
      json_get "stage_inputs" root = Some (JArray ins) ∧
      json_get "stage_outputs" root = Some (JArray outs).
Proof.
  eexists _, _. split; [vm_compute; reflexivity|].
  eapply (GenerateTemplateArguments_resource_arrays impeller_host
            sample_options (sample_ir [13]) vertex_compiler 1 initial_world).
  vm_compute. reflexivity.
Defined.

Lemma EmitStructDefinition_inj_witness :
  EmitStructDefinition wide_struct =
    EmitStructDefinition
      {| sd_name := "Wide"; sd_byte_length := 2 + 2;
         sd_members := sd_members wide_struct |} ∧
  wide_struct =
    {| sd_name := "Wide"; sd_byte_length := 2 + 2;
       sd_members := sd_members wide_struct |}.
Proof.
  split; [reflexivity|].
  apply (EmitStructDefinition_inj wide_struct
           {| sd_name := "Wide"; sd_byte_length := 2 + 2;
              sd_members := sd_members wide_struct |}).
  reflexivity.
Defined.

Lemma Reflector_ctor_all_or_nothing_witness :
  ∃ r w',
    Reflector_ctor impeller_host sample_codegen sample_options
      (Some (sample_ir [13])) (Some plain_compiler) 1 initial_world =
      Returned r w' ∧
    ((IsValid r = true ∧
      is_Some (GetReflectionHeader r) ∧
      is_Some (GetReflectionCC r) ∧
      is_Some (GetReflectionJSON sample_dump r)) ∨
     (IsValid r = false ∧
      GetReflectionHeader r = None ∧
      GetReflectionCC r = None ∧
      GetReflectionJSON sample_dump r = None)).
Proof.
  eexists _, _. split; [vm_compute; reflexivity|].
  eapply (Reflector_ctor_all_or_nothing impeller_host sample_codegen
            sample_options (Some (sample_ir [13])) (Some plain_compiler) 1
            initial_world).
  vm_compute. reflexivity.
Defined.

Lemma Reflector_ctor_renders_witness :
  ∃ template_arguments w',
    GenerateTemplateArguments impeller_host sample_options (sample_ir [13])
      plain_compiler 1 initial_world =
      Returned (Some template_arguments) w' ∧
    Reflector_ctor impeller_host sample_codegen sample_options
      (Some (sample_ir [13])) (Some plain_compiler) 1 initial_world =
      Returned {| template_arguments_ := Some template_arguments;
                  reflection_header_ := Some "header";
                  reflection_cc_ := Some "cc";
                  is_valid_ := true |} w'.
Proof.
  eexists _, _. split; [vm_compute; reflexivity|].
  apply (Reflector_ctor_renders impeller_host sample_codegen sample_options
           (sample_ir [13]) plain_compiler 1 initial_world).
  vm_compute. reflexivity.
Defined.

Lemma composite_member_rule_witness :
  ∃ name w',
    ReadStructMember impeller_host (sample_ir []) plain_compiler 1
      (sample_types 13) 0 (sample_types 6) [] 0 initial_world =
    Returned
      ([{| sm_type := "Point"; sm_name := name; sm_offset := 0;
           sm_byte_length := 8 |}], 8) w'.
Proof.
  refine (composite_member_rule impeller_host (sample_ir []) plain_compiler
            1 (sample_types 13) 0 (sample_types 13) 0 (sample_types 6) [] 0
            initial_world sample_chain_13 _ _ "Point" 8 _).
  - lia.
  - reflexivity.
  - right. split; [reflexivity|]. split; [reflexivity|].
    left. by split_and!.
Defined.

Lemma opaque_member_rule_witness :
  ∃ name w',
    ReadStructMember impeller_host (sample_ir []) plain_compiler 1
      (sample_types 13) 0 (sample_types 7) [] 0 initial_world =
    Returned
      ([{| sm_type := "Padding<4>"; sm_name := name; sm_offset := 0;
           sm_byte_length := 4 |}], 4) w'.
Proof.
  refine (opaque_member_rule impeller_host (sample_ir []) plain_compiler
            1 (sample_types 13) 0 (sample_types 13) 0 (sample_types 7) [] 0
            initial_world sample_chain_13 _ _).
  - lia.
  - reflexivity.
Defined.

Lemma ReflectStructDefinition_packed_witness :
  ReflectStructDefinition impeller_host (sample_ir []) plain_compiler 1 13
    initial_world =
    Returned (Some wide_struct)
      {| sUnnamedMembersID := 2; resources_seen := [] |} ∧
  packed_from 0 (sd_members wide_struct).
Proof.
  split; [vm_compute; reflexivity|].
  apply (ReflectStructDefinition_packed impeller_host (sample_ir [])
           plain_compiler 1 13 initial_world wide_struct
           {| sUnnamedMembersID := 2; resources_seen := [] |}).
  vm_compute. reflexivity.
Defined.

Lemma ReflectStructDefinition_length_mod_witness :
  natural_host impeller_host ∧
  sd_byte_length wide_struct =
    wrap_size (members_byte_length (sd_members wide_struct)).
Proof.
  split; [apply impeller_host_natural|].
  apply (ReflectStructDefinition_length_mod impeller_host (sample_ir [])
           plain_compiler 1 13 initial_world wide_struct
           {| sUnnamedMembersID := 2; resources_seen := [] |}
           impeller_host_natural).
  vm_compute. reflexivity.
Defined.

Lemma wide_struct_no_underflow :
  Forall (no_underflow impeller_host)
    (get_type plain_compiler <$> member_types (get_type plain_compiler 13)).
Proof.
  repeat constructor. intros known_type Hknown _ _.
  injection Hknown as <-. by vm_compute.
Defined.

Lemma ReflectStructDefinition_exact_witness :
  declared_total
    (get_type plain_compiler <$> member_types (get_type plain_compiler 13))
    < 2 ^ 64 ∧
  sd_byte_length wide_struct = members_byte_length (sd_members wide_struct) ∧
  contiguous_from 0 (sd_members wide_struct).
Proof.
  split; [by vm_compute|].
  apply (ReflectStructDefinition_exact impeller_host (sample_ir [])
           plain_compiler 1 13 initial_world wide_struct
           {| sUnnamedMembersID := 2; resources_seen := [] |}
           impeller_host_natural wide_struct_no_underflow).
  - by vm_compute.
  - vm_compute. reflexivity.
Defined.

Lemma ReflectPerVertexStructDefinition_layout_witness :
  ∃ struc,
    ReflectPerVertexStructDefinition impeller_host vertex_compiler
      [position_input; color_input] = Some struc ∧
    sd_name struc = "PerVertexData" ∧
    length (sd_members struc) = 2%nat ∧
    contiguous_from 0 (sd_members struc) ∧
    sd_byte_length struc = members_byte_length (sd_members struc).
Proof.
  eexists. split; [vm_compute; reflexivity|].
  apply (ReflectPerVertexStructDefinition_layout impeller_host
           vertex_compiler [position_input; color_input]).
  vm_compute. reflexivity.
Defined.

Lemma ReadStructMember_scalar_underflow_witness :
  ∃ name pad_name total' w',
    ReadStructMember impeller_host (sample_ir []) plain_compiler 1
      (sample_types 13) 0 (sample_types 1) [] 0 initial_world =
    Returned
      ([{| sm_type := "bool"; sm_name := name; sm_offset := 0;
           sm_byte_length := 1 |};
        {| sm_type := "Padding<18446744073709551615>";
           sm_name := pad_name; sm_offset := 1;
           sm_byte_length := 18446744073709551615 |}],
       total') w'.
Proof.
  refine (ReadStructMember_scalar_underflow impeller_host (sample_ir [])
            plain_compiler 1 (sample_types 13) 0 (sample_types 13) 0
            (sample_types 1)
            {| kt_name := "bool"; kt_byte_size := sizeof_bool impeller_host |}
            [] 0 initial_world sample_chain_13 _ _ _ _ _).
  - lia.
  - reflexivity.
  - reflexivity.
  - reflexivity.
  - by vm_compute.
Defined.

Lemma scalar_rule_as_stated_on_whole_bytes_witness :
  (width (sample_types 4)) mod 8 = 0 ∧
  scalar_rule_as_stated impeller_host (sample_ir []) plain_compiler 1
    (sample_types 13) 0 (sample_types 4) [] 0 initial_world.
Proof.
  split; [reflexivity|].
  apply (scalar_rule_as_stated_on_whole_bytes impeller_host (sample_ir [])
           plain_compiler 1 (sample_types 13) 0 (sample_types 13) 0
           (sample_types 4) [] 0 initial_world sample_chain_13).
  - lia.
  - reflexivity.
  - intros known_type Hknown. injection Hknown as <-. by vm_compute.
Defined.
